(** * The local subscription registry of deepstream.io

    A shallow embedding of
    [src/services/subscription-registry/default-subscription-registry.ts]
    (class [DefaultSubscriptionRegistry]) and the properties of its
    subscribe / unsubscribe / close-hook / fanout operations.

    Modelling conventions.
    - A [SocketWrapper] is an object compared by identity: a [conn] is its
      identity.  Its methods are collaborators outside the registry; every call
      the registry makes on one is recorded as an [Event], in program order.
    - A [Subscription] is a mutable object shared between the two indexes
      ([this.subscriptions] and the sets stored in [this.sockets]).  The
      objects live in [heap]; a [ref] is the identity of one of them.
    - A JavaScript [Set] iterates in insertion order: it is a duplicate-free
      list, new members appended at the end.
    - A [Map] that is never iterated is a [gmap].
    - The cluster state registry, the cluster node, the monitoring service,
      the logger and the subscription listener are collaborators as well:
      calls to them are events.  Listener callbacks are taken not to call back
      into the registry while an operation is running.
    - A log call is recorded with the action code it looks up, the
      subscription name and the socket; the text it formats is not.
    - An optional [silent?: boolean] is a [bool], [undefined] being [false];
      so is [suppressRemote], whose default is [false].
    - A [ref] the registry holds always points into [heap] (JavaScript has no
      dangling references): the [None] branches of the heap lookups below are
      there for totality and are never taken from a state the registry can
      reach (see [Inv]).
    - A string is a sequence of 8-bit characters.  Subscription names are
      only compared, so any string will do for them; the strings that are
      upper-cased ([setAction], [parseLogLevel]) are modelled for ASCII
      input (see [toUpperCase] and [ascii_only]). *)

From Stdlib Require Import Ascii.
From stdpp Require Import base option list gmap strings.

Local Open Scope string_scope.
Local Open Scope list_scope.

(** ** Data model *)

(** Identities of socket wrappers and of [Subscription] objects. *)
Abbreviation conn := nat (only parsing).
Abbreviation ref := nat (only parsing).

(** An action code: a member of one of the numeric action enums. *)
Abbreviation ACTION := nat (only parsing).

(** [TOPIC | STATE_REGISTRY_TOPIC]: the members the constructor switches on,
    and every other member of the two enums. *)
Inductive TOPIC :=
| RECORD
| EVENT
| RPC
| PRESENCE
| MONITORING
| RECORD_LISTEN_PATTERNS
| EVENT_LISTEN_PATTERNS
| OTHER_TOPIC (code : nat).

Inductive LOG_LEVEL := DEBUG | INFO | WARN | ERROR.

(** The fields of a [Message] the registry reads or writes; [None] is a
    property that is absent or [undefined].  [msg_names] is the [names] array
    of a [BulkSubscriptionMessage]; [msg_data] stands for the payload
    properties the registry never inspects. *)
Record Message := mkMessage {
  msg_topic : TOPIC;
  msg_action : option ACTION;
  msg_originalAction : option ACTION;
  msg_name : option string;
  msg_names : list string;
  msg_correlationId : option string;
  msg_data : option string
}.

Module Subscription.
(** [interface Subscription { name: string; sockets: Set<SocketWrapper> }] *)
Record t := mk {
  name : string;
  sockets : list conn
}.
End Subscription.

(** The calls the registry makes on its collaborators. *)
Inductive Event :=
| SocketSendMessage (socket : conn) (m : Message)
| SocketSendAckMessage (socket : conn) (m : Message)
| SocketSendBuiltMessage (socket : conn) (bytes : list Byte.byte) (allowBatch : bool)
| SocketOnClose (socket : conn)
| SocketRemoveOnClose (socket : conn)
| ClusterStateAdd (name : string)
| ClusterStateRemove (name : string)
| ClusterStateOnAdd
| ClusterStateOnRemove
| ClusterNodeSend (m : Message)
| MonitoringOnBroadcast (m : Message) (count : nat)
| ListenerOnSubscriptionMade (name : string) (socket : conn)
| ListenerOnSubscriptionRemoved (name : string) (socket : conn)
| LoggerWarn (event : option ACTION) (name : string) (socket : conn)
| LoggerDebug (event : option ACTION) (name : string) (socket : conn)
| LoggerError (event : option ACTION).

(** The fields of a [DefaultSubscriptionRegistry], and the [Subscription]
    objects it has allocated.  [constants] is a JavaScript object used as a
    table from property names to action codes; a property whose value is
    [undefined] is bound to [None]. *)
Record Registry := mkRegistry {
  sockets : gmap conn (list ref);
  subscriptions : gmap string ref;
  subscriptionListener : bool;
  constants : gmap string (option ACTION);
  actions : gmap string ACTION;
  topic : TOPIC;
  heap : list Subscription.t
}.

Definition with_sockets (f : gmap conn (list ref) → gmap conn (list ref)) (st : Registry) : Registry :=
  mkRegistry (f (sockets st)) (subscriptions st) (subscriptionListener st)
             (constants st) (actions st) (topic st) (heap st).

Definition with_subscriptions (f : gmap string ref → gmap string ref) (st : Registry) : Registry :=
  mkRegistry (sockets st) (f (subscriptions st)) (subscriptionListener st)
             (constants st) (actions st) (topic st) (heap st).

Definition with_constants (f : gmap string (option ACTION) → gmap string (option ACTION))
    (st : Registry) : Registry :=
  mkRegistry (sockets st) (subscriptions st) (subscriptionListener st)
             (f (constants st)) (actions st) (topic st) (heap st).

Definition with_listener (b : bool) (st : Registry) : Registry :=
  mkRegistry (sockets st) (subscriptions st) b
             (constants st) (actions st) (topic st) (heap st).

Definition with_heap (f : list Subscription.t → list Subscription.t) (st : Registry) : Registry :=
  mkRegistry (sockets st) (subscriptions st) (subscriptionListener st)
             (constants st) (actions st) (topic st) (f (heap st)).

(** ** JavaScript sets as insertion-ordered lists *)

Section JsSet.
Context {A : Type} `{EqDecision A}.

Definition set_has (x : A) (s : list A) : bool := bool_decide (x ∈ s).

(** [s.add(x)]: a new member goes to the end. *)
Definition set_add (x : A) (s : list A) : list A :=
  if set_has x s then s else s ++ [x].

(** [s.delete(x)]; its boolean result is [set_has x s]. *)
Definition set_delete (x : A) (s : list A) : list A :=
  filter (λ y, y ≠ x) s.
End JsSet.

(** ** Operations as state transformers that emit events *)

Definition Op := Registry → Registry * list Event.

Definition skip : Op := λ st, (st, []).
Definition emit (e : Event) : Op := λ st, (st, [e]).
Definition modify (f : Registry → Registry) : Op := λ st, (f st, []).
Definition seq (a b : Op) : Op := λ st,
  let '(st1, t1) := a st in
  let '(st2, t2) := b st1 in
  (st2, t1 ++ t2).
Definition when (b : bool) (a : Op) : Op := if b then a else skip.

Notation "a ;; b" := (seq a b) (at level 100, b at level 200, right associativity).

(** [String.prototype.toUpperCase], for strings of ASCII characters.  A
    string of the model is a sequence of 8-bit characters; on a string whose
    characters are all below 128, JavaScript's upper-casing changes exactly
    the letters [a-z], which is what [toUpperCase] does.  Outside ASCII the
    two differ (JavaScript maps [ß] to [SS] and the dotless [ı] to [I]), so
    a statement about an upper-cased value is made for [ascii_only] strings,
    or under a hypothesis that forces the string to be one. *)
Definition is_ascii (c : ascii) : bool := Nat.ltb (nat_of_ascii c) 128.

Fixpoint ascii_only (s : string) : bool :=
  match s with
  | EmptyString => true
  | String c s' => is_ascii c && ascii_only s'
  end.

Definition upper_ascii (c : ascii) : ascii :=
  let n := nat_of_ascii c in
  if Nat.leb 97 n && Nat.leb n 122 then ascii_of_nat (n - 32) else c.

Fixpoint toUpperCase (s : string) : string :=
  match s with
  | EmptyString => EmptyString
  | String c s' => String (upper_ascii c) (toUpperCase s')
  end.

(** The action enums of [constants], which the constructor chooses from:
    each maps member names to codes. *)
Record ActionTables := mkActionTables {
  RECORD_ACTION : gmap string ACTION;
  EVENT_ACTION : gmap string ACTION;
  RPC_ACTION : gmap string ACTION;
  PRESENCE_ACTION : gmap string ACTION;
  MONITORING_ACTION : gmap string ACTION
}.

Definition select_actions (T : ActionTables) (t : TOPIC) : option (gmap string ACTION) :=
  match t with
  | RECORD | RECORD_LISTEN_PATTERNS => Some (RECORD_ACTION T)
  | EVENT | EVENT_LISTEN_PATTERNS => Some (EVENT_ACTION T)
  | RPC => Some (RPC_ACTION T)
  | PRESENCE => Some (PRESENCE_ACTION T)
  | MONITORING => Some (MONITORING_ACTION T)
  | OTHER_TOPIC _ => None
  end.

(** The constructor.  For a topic outside the switch [this.actions] stays
    [undefined] and reading a property of it throws: [None]. *)
Definition DefaultSubscriptionRegistry (T : ActionTables) (t : TOPIC) : option Registry :=
  match select_actions T t with
  | None => None
  | Some acts =>
      Some {| sockets := ∅;
              subscriptions := ∅;
              subscriptionListener := false;
              constants :=
                <["MULTIPLE_SUBSCRIPTIONS" := acts !! "MULTIPLE_SUBSCRIPTIONS"]>
                (<["NOT_SUBSCRIBED" := acts !! "NOT_SUBSCRIBED"]>
                (<["SUBSCRIBE" := acts !! "SUBSCRIBE"]>
                (<["UNSUBSCRIBE" := acts !! "UNSUBSCRIBE"]> ∅)));
              actions := acts;
              topic := t;
              heap := [] |}
  end.

(** [this.constants.X] *)
Definition constant (st : Registry) (slot : string) : option ACTION :=
  mjoin (constants st !! slot).

(** [(this.constants as any)[name.toUpperCase()] = value]; the key is the
    code's for [ascii_only] names. *)
Definition setAction (name : string) (value : ACTION) : Op :=
  modify (with_constants (<[toUpperCase name := Some value]>)).

(** [setSubscriptionListener (listener)]: the listener is installed and its
    first/last callbacks are handed to the cluster state registry. *)
Definition setSubscriptionListener : Op :=
  modify (with_listener true) ;; emit ClusterStateOnAdd ;; emit ClusterStateOnRemove.

(** The end of [removeSocket]:
    [const subscriptions = this.sockets.get(socket)
     if (subscriptions) { subscriptions.delete(subscription) }];
    the entry for [socket] stays in the map. *)
Definition forget (subscription : ref) (socket : conn)
    (m : gmap conn (list ref)) : gmap conn (list ref) :=
  match m !! socket with
  | Some subscriptions => <[socket := set_delete subscription subscriptions]> m
  | None => m
  end.

Section Registry.
(** [this.services.logger.shouldLog] and the sockets' [getMessage]. *)
Variable shouldLog : LOG_LEVEL → bool.
Variable getMessage : conn → Message → list Byte.byte.

(** [private addSocket (subscription, socket)] *)
Definition addSocket (subscription : ref) (socket : conn) : Op := λ st,
  match heap st !! subscription with
  | None => (st, [])
  | Some sub =>
      let subscriptions := default [] (sockets st !! socket) in
      ( when (bool_decide (length subscriptions = 0))
          ( modify (with_sockets (<[socket := subscriptions]>)) ;;
            emit (SocketOnClose socket) ) ;;
        modify (with_sockets (<[socket := set_add subscription subscriptions]>)) ;;
        emit (ClusterStateAdd (Subscription.name sub)) ;;
        when (subscriptionListener st)
          (emit (ListenerOnSubscriptionMade (Subscription.name sub) socket)) ) st
  end.

(** [private removeSocket (subscription, socket)] *)
Definition removeSocket (subscription : ref) (socket : conn) : Op := λ st,
  match heap st !! subscription with
  | None => (st, [])
  | Some sub =>
      ( when (bool_decide (length (Subscription.sockets sub) = 0))
          ( modify (with_subscriptions (delete (Subscription.name sub))) ;;
            emit (SocketRemoveOnClose socket) ) ;;
        when (subscriptionListener st)
          (emit (ListenerOnSubscriptionRemoved (Subscription.name sub) socket)) ;;
        emit (ClusterStateRemove (Subscription.name sub)) ;;
        modify (with_sockets (forget subscription socket)) ) st
  end.

(** [subscription.sockets.add(socket)] and [subscription.sockets.delete(socket)] *)
Definition sockets_add (subscription : ref) (socket : conn) : Op := λ st,
  match heap st !! subscription with
  | None => (st, [])
  | Some sub =>
      modify (with_heap (<[subscription :=
        Subscription.mk (Subscription.name sub) (set_add socket (Subscription.sockets sub))]>)) st
  end.

Definition sockets_delete (subscription : ref) (socket : conn) : Op := λ st,
  match heap st !! subscription with
  | None => (st, [])
  | Some sub =>
      modify (with_heap (<[subscription :=
        Subscription.mk (Subscription.name sub) (set_delete socket (Subscription.sockets sub))]>)) st
  end.

(** [public subscribe (name, message, socket, silent?)].  The subscription
    is the one installed under [name] or a fresh object. *)
Definition subscribe (name : string) (message : Message) (socket : conn) (silent : bool) : Op := λ st,
  let '(subscription, st0) :=
    match subscriptions st !! name with
    | Some r => (r, st)
    | None => (length (heap st), with_heap (λ h, h ++ [Subscription.mk name []]) st)
    end in
  let proceed : Op :=
    sockets_add subscription socket ;;
    addSocket subscription socket ;;
    when (negb silent)
      ( when (shouldLog DEBUG) (emit (LoggerDebug (constant st "SUBSCRIBE") name socket)) ;;
        emit (SocketSendAckMessage socket message) ) in
  match heap st0 !! subscription with
  | None => (st0, [])
  | Some sub =>
      if bool_decide (length (Subscription.sockets sub) = 0) then
        ( modify (with_subscriptions (<[name := subscription]>)) ;; proceed ) st0
      else if set_has socket (Subscription.sockets sub) then
        ( when (shouldLog WARN)
            (emit (LoggerWarn (constant st "MULTIPLE_SUBSCRIPTIONS") name socket)) ;;
          emit (SocketSendMessage socket
                  {| msg_topic := topic st;
                     msg_action := constant st "MULTIPLE_SUBSCRIPTIONS";
                     msg_originalAction := msg_action message;
                     msg_name := Some name;
                     msg_names := [];
                     msg_correlationId := None;
                     msg_data := None |}) ) st0
      else proceed st0
  end.

(** [public unsubscribe (name, message, socket, silent?)].
    [subscription.sockets.delete(socket)] is evaluated in the condition: it
    removes the socket and tells whether it was a member. *)
Definition unsubscribe (name : string) (message : Message) (socket : conn) (silent : bool) : Op := λ st,
  let not_subscribed : Op :=
    when (negb silent)
      ( when (shouldLog WARN)
          (emit (LoggerWarn (constant st "NOT_SUBSCRIBED") name socket)) ;;
        emit (SocketSendMessage socket
                {| msg_topic := topic st;
                   msg_action := constant st "NOT_SUBSCRIBED";
                   msg_originalAction := msg_action message;
                   msg_name := Some name;
                   msg_names := [];
                   msg_correlationId := None;
                   msg_data := None |}) ) in
  match subscriptions st !! name with
  | None => not_subscribed st
  | Some subscription =>
      match heap st !! subscription with
      | None => (st, [])
      | Some sub =>
          if set_has socket (Subscription.sockets sub) then
            ( sockets_delete subscription socket ;;
              removeSocket subscription socket ;;
              when (negb silent)
                ( when (shouldLog DEBUG)
                    (emit (LoggerDebug (constant st "UNSUBSCRIBE") name socket)) ;;
                  emit (SocketSendAckMessage socket message) ) ) st
          else not_subscribed st
      end
  end.

(** The bulk ACK: [{ topic, action, correlationId }] of the bulk message. *)
Definition bulkAck (message : Message) : Message :=
  {| msg_topic := msg_topic message;
     msg_action := msg_action message;
     msg_originalAction := None;
     msg_name := None;
     msg_names := [];
     msg_correlationId := msg_correlationId message;
     msg_data := None |}.

(** The loops of the bulk operations over [message.names], in order. *)
Fixpoint forEach (names : list string) (body : string → Op) : Op :=
  match names with
  | [] => skip
  | name :: rest => body name ;; forEach rest body
  end.

Definition subscribeBulk (message : Message) (socket : conn) (silent : bool) : Op :=
  forEach (msg_names message) (λ name, subscribe name message socket true) ;;
  when (negb silent) (emit (SocketSendAckMessage socket (bulkAck message))).

Definition unsubscribeBulk (message : Message) (socket : conn) (silent : bool) : Op :=
  forEach (msg_names message) (λ name, unsubscribe name message socket true) ;;
  when (negb silent) (emit (SocketSendAckMessage socket (bulkAck message))).

(** [return subscription ? subscription.sockets : new Set()] *)
Definition getLocalSubscribers (st : Registry) (name : string) : list conn :=
  match subscriptions st !! name with
  | Some subscription =>
      match heap st !! subscription with
      | Some sub => Subscription.sockets sub
      | None => []
      end
  | None => []
  end.

(** [return this.subscriptions.has(name)] *)
Definition hasLocalSubscribers (st : Registry) (name : string) : bool :=
  bool_decide (is_Some (subscriptions st !! name)).

(** [for (const subscription of subscriptions)] over the set stored for
    [socket], which the loop body shrinks while the loop runs.  A [Set]
    iterator is live: it walks the entries in insertion order and passes
    over one that has been deleted before it is reached.  Nothing is added
    during the loop, so the entries still to visit are those of [pending]
    that are members of the stored set when their turn comes. *)
Fixpoint forOfLive (socket : conn) (pending : list ref) (body : ref → Op) : Op :=
  match pending with
  | [] => skip
  | subscription :: rest =>
      (λ st, if set_has subscription (default [] (sockets st !! socket))
             then body subscription st else skip st) ;;
      forOfLive socket rest body
  end.

(** [private onSocketClose (socket)], the close hook. *)
Definition onSocketClose (socket : conn) : Op := λ st,
  match sockets st !! socket with
  | None => emit (LoggerError (constant st "NOT_SUBSCRIBED")) st
  | Some subscriptions =>
      forOfLive socket subscriptions
        (λ subscription,
           sockets_delete subscription socket ;; removeSocket subscription socket) st
  end.

(** [if (senderSocket !== null && suppressRemote === false)
      { this.services.clusterNode.send(message) }] *)
Definition forwarded (message : Message) (senderSocket : option nat)
    (suppressRemote : bool) : list Event :=
  if bool_decide (senderSocket ≠ None) && negb suppressRemote
  then [ClusterNodeSend message] else [].

(** How a call ends: it returns, or it throws a [TypeError]. *)
Inductive Completion := Returns | Throws.

(** [public sendToSubscribers (name, message, noDelay, senderSocket,
    suppressRemote = false)].  It changes nothing in the registry.  With an
    empty socket set [first] is [undefined] and [first.getMessage] throws. *)
Definition sendToSubscribers (name : string) (message : Message) (noDelay : bool)
    (senderSocket : option conn) (suppressRemote : bool) (st : Registry)
    : list Event * Completion :=
  let forwarded := forwarded message senderSocket suppressRemote in
  match subscriptions st !! name with
  | None => (forwarded, Returns)
  | Some subscription =>
      let subscribers := default [] (Subscription.sockets <$> heap st !! subscription) in
      let broadcast := [MonitoringOnBroadcast message (length subscribers)] in
      match subscribers with
      | [] => (forwarded ++ broadcast, Throws)
      | first :: _ =>
          let msg := getMessage first message in
          (forwarded ++ broadcast ++
             map (λ socket, SocketSendBuiltMessage socket msg true)
                 (filter (λ socket, Some socket ≠ senderSocket) subscribers),
           Returns)
      end
  end.

End Registry.

(** ** The public surface, and the states a registry can be in *)

Inductive Call :=
| Subscribe (name : string) (message : Message) (socket : conn) (silent : bool)
| Unsubscribe (name : string) (message : Message) (socket : conn) (silent : bool)
| SubscribeBulk (message : Message) (socket : conn) (silent : bool)
| UnsubscribeBulk (message : Message) (socket : conn) (silent : bool)
| SocketClose (socket : conn)
| SetAction (name : string) (value : ACTION)
| SetSubscriptionListener.

Definition run (shouldLog : LOG_LEVEL → bool) (c : Call) : Op :=
  match c with
  | Subscribe name message socket silent => subscribe shouldLog name message socket silent
  | Unsubscribe name message socket silent => unsubscribe shouldLog name message socket silent
  | SubscribeBulk message socket silent => subscribeBulk shouldLog message socket silent
  | UnsubscribeBulk message socket silent => unsubscribeBulk shouldLog message socket silent
  | SocketClose socket => onSocketClose socket
  | SetAction name value => setAction name value
  | SetSubscriptionListener => setSubscriptionListener
  end.

Fixpoint run_all (shouldLog : LOG_LEVEL → bool) (cs : list Call) : Op :=
  match cs with
  | [] => skip
  | c :: rest => run shouldLog c ;; run_all shouldLog rest
  end.

(** A registry as the constructor leaves it, or after any further call.
    [sendToSubscribers] and the getters leave the registry as it is. *)
Inductive reachable (shouldLog : LOG_LEVEL → bool) : Registry → Prop :=
| reachable_new T t st :
    DefaultSubscriptionRegistry T t = Some st → reachable shouldLog st
| reachable_call st c :
    reachable shouldLog st → reachable shouldLog (run shouldLog c st).1.

(** The consistency of the two indexes:
    - a subscription installed under a name carries that name and has a
      subscriber;
    - a subscription held for a connection is the one installed under its
      name, and the connection is one of its subscribers;
    - the set held for a connection has no duplicates. *)
Record Inv (st : Registry) : Prop := mkInv {
  inv_installed : ∀ name r,
    subscriptions st !! name = Some r →
    ∃ sub, heap st !! r = Some sub ∧ Subscription.name sub = name
           ∧ Subscription.sockets sub ≠ [];
  inv_held : ∀ c held r,
    sockets st !! c = Some held → r ∈ held →
    ∃ sub, heap st !! r = Some sub
           ∧ subscriptions st !! Subscription.name sub = Some r
           ∧ c ∈ Subscription.sockets sub;
  inv_nodup : ∀ c held, sockets st !! c = Some held → NoDup held
}.

(** The names of the subscriptions held for a connection, in the order of
    its set. *)
Definition name_of (st : Registry) (r : ref) : option string :=
  Subscription.name <$> heap st !! r.

Definition held_names (st : Registry) (socket : conn) : list string :=
  omap (name_of st) (default [] (sockets st !! socket)).

(** Classes of events. *)
Definition is_removed_callback (e : Event) : bool :=
  match e with ListenerOnSubscriptionRemoved _ _ => true | _ => false end.

Definition is_ack (e : Event) : bool :=
  match e with SocketSendAckMessage _ _ => true | _ => false end.

Definition is_reply (e : Event) : bool :=
  match e with SocketSendMessage _ _ => true | _ => false end.

Definition is_cluster_add (e : Event) : bool :=
  match e with ClusterStateAdd _ => true | _ => false end.

Definition is_cluster_send (e : Event) : bool :=
  match e with ClusterNodeSend _ => true | _ => false end.

Definition is_close_hook (socket : conn) (e : Event) : bool :=
  match e with
  | SocketOnClose c | SocketRemoveOnClose c => bool_decide (c = socket)
  | _ => false
  end.

(** The protocol replies of [subscribe] and [unsubscribe]. *)
Definition multipleSubscriptions (st : Registry) (name : string) (message : Message) : Message :=
  {| msg_topic := topic st;
     msg_action := constant st "MULTIPLE_SUBSCRIPTIONS";
     msg_originalAction := msg_action message;
     msg_name := Some name;
     msg_names := [];
     msg_correlationId := None;
     msg_data := None |}.

Definition notSubscribed (st : Registry) (name : string) (message : Message) : Message :=
  {| msg_topic := topic st;
     msg_action := constant st "NOT_SUBSCRIBED";
     msg_originalAction := msg_action message;
     msg_name := Some name;
     msg_names := [];
     msg_correlationId := None;
     msg_data := None |}.

(** The four slots the constructor fills. *)
Definition canonical : list string :=
  ["MULTIPLE_SUBSCRIPTIONS"; "NOT_SUBSCRIBED"; "SUBSCRIBE"; "UNSUBSCRIBE"].

(** ** The outcomes of the subscribe and unsubscribe paths *)

(** A fresh [Subscription] for [name], installed in [this.subscriptions]. *)
Definition installed (st : Registry) (name : string) : Registry :=
  with_subscriptions (<[name := length (heap st)]>)
    (with_heap (λ h, h ++ [Subscription.mk name []]) st).

(** [c] has joined the subscription [r]: both indexes updated. *)
Definition joined (st : Registry) (r : ref) (c : conn) (sub : Subscription.t) : Registry :=
  with_sockets (<[c := set_add r (default [] (sockets st !! c))]>)
    (with_heap (<[r := Subscription.mk (Subscription.name sub)
                          (set_add c (Subscription.sockets sub))]>) st).

(** [c] has left the subscription [r]. *)
Definition dropped (st : Registry) (r : ref) (c : conn) (sub : Subscription.t) : Registry :=
  let rest := set_delete c (Subscription.sockets sub) in
  with_sockets (forget r c)
    (with_subscriptions
       (if bool_decide (length rest = 0) then delete (Subscription.name sub) else id)
       (with_heap (<[r := Subscription.mk (Subscription.name sub) rest]>) st)).

Definition join_trace (shouldLog : LOG_LEVEL → bool) (st : Registry) (name : string)
    (message : Message) (c : conn) (silent : bool) : list Event :=
  (if bool_decide (length (default [] (sockets st !! c)) = 0)
   then [SocketOnClose c] else [])
  ++ ClusterStateAdd name
  :: (if subscriptionListener st then [ListenerOnSubscriptionMade name c] else [])
  ++ (if silent then []
      else (if shouldLog DEBUG then [LoggerDebug (constant st "SUBSCRIBE") name c] else [])
           ++ [SocketSendAckMessage c message]).

Definition duplicate_trace (shouldLog : LOG_LEVEL → bool) (st : Registry) (name : string)
    (message : Message) (c : conn) : list Event :=
  (if shouldLog WARN
   then [LoggerWarn (constant st "MULTIPLE_SUBSCRIPTIONS") name c] else [])
  ++ [SocketSendMessage c (multipleSubscriptions st name message)].

Definition drop_trace (st : Registry) (c : conn) (sub : Subscription.t) : list Event :=
  (if bool_decide (length (set_delete c (Subscription.sockets sub)) = 0)
   then [SocketRemoveOnClose c] else [])
  ++ (if subscriptionListener st
      then [ListenerOnSubscriptionRemoved (Subscription.name sub) c] else [])
  ++ [ClusterStateRemove (Subscription.name sub)].

Definition leave_trace (shouldLog : LOG_LEVEL → bool) (st : Registry) (name : string)
    (message : Message) (c : conn) (sub : Subscription.t) (silent : bool) : list Event :=
  drop_trace st c sub
  ++ (if silent then []
      else (if shouldLog DEBUG then [LoggerDebug (constant st "UNSUBSCRIBE") name c] else [])
           ++ [SocketSendAckMessage c message]).

Definition stranger_trace (shouldLog : LOG_LEVEL → bool) (st : Registry) (name : string)
    (message : Message) (c : conn) (silent : bool) : list Event :=
  if silent then []
  else (if shouldLog WARN then [LoggerWarn (constant st "NOT_SUBSCRIBED") name c] else [])
       ++ [SocketSendMessage c (notSubscribed st name message)].

(** [Inv], except that the subscription [r] may still be without a
    subscriber: the state in the middle of a [subscribe]. *)
Record Joining (st : Registry) (r : ref) (sub : Subscription.t) : Prop := mkJoining {
  joining_target : heap st !! r = Some sub;
  joining_name : subscriptions st !! Subscription.name sub = Some r;
  joining_installed : ∀ name r',
    subscriptions st !! name = Some r' →
    ∃ sub', heap st !! r' = Some sub' ∧ Subscription.name sub' = name
            ∧ (r' ≠ r → Subscription.sockets sub' ≠ []);
  joining_held : ∀ c held r',
    sockets st !! c = Some held → r' ∈ held →
    ∃ sub', heap st !! r' = Some sub'
            ∧ subscriptions st !! Subscription.name sub' = Some r'
            ∧ c ∈ Subscription.sockets sub';
  joining_nodup : ∀ c held, sockets st !! c = Some held → NoDup held
}.

(** ** A concrete registry for the examples *)

Module Sample.
Definition codes : gmap string ACTION :=
  <["MULTIPLE_SUBSCRIPTIONS" := 1]>
  (<["NOT_SUBSCRIBED" := 2]>
  (<["SUBSCRIBE" := 3]>
  (<["UNSUBSCRIBE" := 4]> ∅))).

Definition tables : ActionTables := mkActionTables codes codes codes codes codes.

Definition empty : Registry :=
  {| sockets := ∅;
     subscriptions := ∅;
     subscriptionListener := false;
     constants :=
       <["MULTIPLE_SUBSCRIPTIONS" := Some 1]>
       (<["NOT_SUBSCRIBED" := Some 2]>
       (<["SUBSCRIBE" := Some 3]>
       (<["UNSUBSCRIBE" := Some 4]> ∅)));
     actions := codes;
     topic := EVENT;
     heap := [] |}.

Definition quiet (l : LOG_LEVEL) : bool := false.

Definition request (action : ACTION) (name : string) : Message :=
  mkMessage EVENT (Some action) None (Some name) [] None None.

Definition bulk (action : ACTION) (names : list string) (correlationId : string) : Message :=
  mkMessage EVENT (Some action) None None names (Some correlationId) None.

Definition render (socket : conn) (m : Message) : list Byte.byte := [].
End Sample.

(** ** The servers of a subscription *)

(** [serverNames.indexOf(x)]: the index of the first occurrence, or -1. *)
Fixpoint indexOf (x : string) (l : list string) : Z :=
  match l with
  | [] => (-1)%Z
  | y :: rest =>
      if decide (y = x) then 0%Z
      else let i := indexOf x rest in
           if (i <? 0)%Z then (-1)%Z else (i + 1)%Z
  end.

(** [l.splice(start, 1)], for what it leaves in the array: a negative
    [start] counts from the end, and [start] is clamped to the array. *)
Definition splice1 (start : Z) (l : list string) : list string :=
  let len := Z.of_nat (length l) in
  let from := if (start <? 0)%Z then Z.max (len + start) 0 else Z.min start len in
  take (Z.to_nat from) l ++ drop (S (Z.to_nat from)) l.

(** [public getAllRemoteServers (subscriptionName)], as a function of
    [this.config.serverName] and of the array that the cluster state
    registry's [getAllServers] returns, which it edits in place. *)
Definition getAllRemoteServers (serverName : string) (serverNames : list string)
    : list string :=
  let localServerIndex := indexOf serverName serverNames in
  if (localServerIndex >? -1)%Z
  then splice1 (indexOf serverName serverNames) serverNames
  else serverNames.

(** ** Counting calls on the collaborators *)

Definition is_cluster_add_of (name : string) (e : Event) : bool :=
  match e with ClusterStateAdd n => bool_decide (n = name) | _ => false end.

Definition is_cluster_remove_of (name : string) (e : Event) : bool :=
  match e with ClusterStateRemove n => bool_decide (n = name) | _ => false end.

Definition is_made_of (name : string) (socket : conn) (e : Event) : bool :=
  match e with
  | ListenerOnSubscriptionMade n c => bool_decide (n = name ∧ c = socket)
  | _ => false
  end.

Definition is_removed_of (name : string) (socket : conn) (e : Event) : bool :=
  match e with
  | ListenerOnSubscriptionRemoved n c => bool_decide (n = name ∧ c = socket)
  | _ => false
  end.

Definition is_log (e : Event) : bool :=
  match e with
  | LoggerWarn _ _ _ | LoggerDebug _ _ _ | LoggerError _ => true
  | _ => false
  end.

(** A call on a socket: a message sent, or the close hook set or unset. *)
Definition is_socket_call (e : Event) : bool :=
  match e with
  | SocketSendMessage _ _ | SocketSendAckMessage _ _ | SocketSendBuiltMessage _ _ _
  | SocketOnClose _ | SocketRemoveOnClose _ => true
  | _ => false
  end.

Definition count (p : Event → bool) (t : list Event) : nat :=
  length (List.filter p t).

(** The socket a built message is handed to. *)
Definition built_for (e : Event) : option nat :=
  match e with SocketSendBuiltMessage socket _ _ => Some socket | _ => None end.

(** The name a [remove] call on the cluster state registry is for. *)
Definition removed_name (e : Event) : option string :=
  match e with ClusterStateRemove name => Some name | _ => None end.

(** ** The command line: [--log-level] *)

(** How an option parser of the command line ends: with the parsed value,
    or in [process.exit(code)] after a message on the error stream. *)
Inductive Parsed (A : Type) :=
| Value (a : A)
| ProcessExit (code : nat).
Arguments Value {A} a.
Arguments ProcessExit {A} code.

Definition lower_ascii (c : ascii) : ascii :=
  let n := nat_of_ascii c in
  if Nat.leb 65 n && Nat.leb n 90 then ascii_of_nat (n + 32) else c.

Fixpoint toLowerCase (s : string) : string :=
  match s with
  | EmptyString => EmptyString
  | String c s' => String (lower_ascii c) (toLowerCase s')
  end.

(** The pattern matches at the start of the string, letter case ignored. *)
Fixpoint starts_with_ci (pattern s : string) : bool :=
  match pattern, s with
  | EmptyString, _ => true
  | String a pattern', String b s' =>
      Ascii.eqb (lower_ascii a) (lower_ascii b) && starts_with_ci pattern' s'
  | String _ _, EmptyString => false
  end.

(** The pattern matches somewhere in the string: what [test] of a regular
    expression without anchors looks for. *)
Fixpoint contains_ci (pattern s : string) : bool :=
  starts_with_ci pattern s
  || match s with
     | EmptyString => false
     | String _ s' => contains_ci pattern s'
     end.

(** The alternatives of [/debug|info|warn|error|off/i]. *)
Definition levels : list string := ["debug"; "info"; "warn"; "error"; "off"].

(** [function parseLogLevel (logLevel)].  The test of the pattern is the
    code's for every string (without the [u] flag, a character outside ASCII
    never matches a letter of the pattern); the value returned is the code's
    for [ascii_only] input. *)
Definition parseLogLevel (logLevel : string) : Parsed string :=
  if negb (existsb (λ level, contains_ci level logLevel) levels)
  then ProcessExit 1
  else Value (toUpperCase logLevel).

(** ** Further consistency of the two indexes *)

(** No socket set lists a connection twice. *)
Definition NoDupSockets (st : Registry) : Prop :=
  ∀ r sub, heap st !! r = Some sub → NoDup (Subscription.sockets sub).

(** A subscriber of an installed subscription holds it. *)
Definition Indexed (st : Registry) : Prop :=
  ∀ name r sub c,
    subscriptions st !! name = Some r → heap st !! r = Some sub →
    c ∈ Subscription.sockets sub →
    ∃ held, sockets st !! c = Some held ∧ r ∈ held.

Record Coherent (st : Registry) : Prop := mkCoherent {
  coherent_inv : Inv st;
  coherent_nodup : NoDupSockets st;
  coherent_indexed : Indexed st
}.

(** What a call does to the cluster state registry's count for a name and
    to the set of local subscribers of that name: adds and removes match
    the change of the set's size. *)
Definition balanced (name : string) (st : Registry) (t : list Event) (st' : Registry) : Prop :=
  count (is_cluster_add_of name) t + length (getLocalSubscribers st name)
  = count (is_cluster_remove_of name) t + length (getLocalSubscribers st' name).

(** The same for the listener's per-subscription callbacks and a single
    connection. *)
Definition member (st : Registry) (name : string) (socket : conn) : nat :=
  if bool_decide (socket ∈ getLocalSubscribers st name) then 1 else 0.

Definition notified (name : string) (socket : conn)
    (st : Registry) (t : list Event) (st' : Registry) : Prop :=
  count (is_made_of name socket) t + member st name socket
  = count (is_removed_of name socket) t + member st' name socket.

(** ** Sets and sequencing *)

Lemma length_zero_nil {A} (l : list A) : length l = 0 ↔ l = [].
Proof. destruct l; cbn; split; congruence. Qed.

Lemma elem_of_set_add {A} `{EqDecision A} (x y : A) (s : list A) :
  y ∈ set_add x s ↔ y = x ∨ y ∈ s.
Proof.
  unfold set_add, set_has. case_bool_decide.
  - split; [tauto|]. intros [->|?]; done.
  - rewrite elem_of_app, list_elem_of_singleton. tauto.
Qed.

Lemma set_add_not_nil {A} `{EqDecision A} (x : A) (s : list A) : set_add x s ≠ [].
Proof.
  intros E. assert (x ∈ set_add x s) as Hin by (apply elem_of_set_add; by left).
  rewrite E in Hin. by apply not_elem_of_nil in Hin.
Qed.

Lemma NoDup_set_add {A} `{EqDecision A} (x : A) (s : list A) :
  NoDup s → NoDup (set_add x s).
Proof.
  intros Hs. unfold set_add, set_has. case_bool_decide; [done|].
  apply NoDup_app. split; [done|]. split; [|apply NoDup_singleton].
  intros y Hy ->%list_elem_of_singleton. done.
Qed.

Lemma elem_of_set_delete {A} `{EqDecision A} (x y : A) (s : list A) :
  y ∈ set_delete x s ↔ y ∈ s ∧ y ≠ x.
Proof. unfold set_delete. rewrite list_elem_of_filter. tauto. Qed.

Lemma lookup_forget r c (m : gmap nat (list nat)) c' :
  forget r c m !! c' =
    if decide (c = c') then set_delete r <$> m !! c' else m !! c'.
Proof.
  unfold forget. destruct (decide (c = c')) as [->|Hne].
  - destruct (m !! c') eqn:E; [by rewrite lookup_insert_eq | by rewrite E].
  - destruct (m !! c) eqn:E; [by rewrite lookup_insert_ne | done].
Qed.

Lemma modify_seq f (b : Op) st : (modify f ;; b) st = b (f st).
Proof. unfold seq, modify. by destruct (b (f st)). Qed.

Lemma seq_fst (a b : Op) st : ((a ;; b) st).1 = (b (a st).1).1.
Proof. unfold seq. destruct (a st) as [st1 t1]; cbn. by destruct (b st1). Qed.

Lemma seq_snd (a b : Op) st : ((a ;; b) st).2 = (a st).2 ++ (b (a st).1).2.
Proof. unfold seq. destruct (a st) as [st1 t1]; cbn. by destruct (b st1). Qed.

Lemma seq_assoc (a b c : Op) st : (a ;; b ;; c) st = ((a ;; b) ;; c) st.
Proof.
  unfold seq. destruct (a st) as [st1 t1]. destruct (b st1) as [st2 t2].
  destruct (c st2) as [st3 t3]. by rewrite app_assoc.
Qed.

Lemma forEach_app l1 l2 body st :
  forEach (l1 ++ l2) body st =
    ((forEach l2 body (forEach l1 body st).1).1,
     (forEach l1 body st).2 ++ (forEach l2 body (forEach l1 body st).1).2).
Proof.
  revert st. induction l1 as [|n l1 IH]; intros st; cbn [forEach app].
  - unfold skip. cbn. by destruct (forEach l2 body st).
  - apply injective_projections; cbn [fst snd].
    + rewrite !seq_fst. by rewrite IH.
    + rewrite !seq_snd, !seq_fst, IH. cbn [fst snd]. by rewrite app_assoc.
Qed.

Lemma forEach_preserves (P : Registry → Prop) l body :
  (∀ n st, P st → P (body n st).1) →
  ∀ st, P st → P (forEach l body st).1.
Proof.
  intros Hb. induction l as [|n l IH]; intros st HP; cbn [forEach]; [done|].
  rewrite seq_fst. by apply IH, Hb.
Qed.

Lemma forEach_events (Q : Event → Prop) l body :
  (∀ n st, Forall Q (body n st).2) →
  ∀ st, Forall Q (forEach l body st).2.
Proof.
  intros Hb. induction l as [|n l IH]; intros st; cbn [forEach].
  - constructor.
  - rewrite seq_snd. apply Forall_app. auto.
Qed.

(** ** The subscribe and unsubscribe paths, case by case *)

Section Paths.
Variable shouldLog : LOG_LEVEL → bool.

Lemma addSocket_eq st r c sub :
  heap st !! r = Some sub →
  addSocket r c st =
    (with_sockets (<[c := set_add r (default [] (sockets st !! c))]>) st,
     (if bool_decide (length (default [] (sockets st !! c)) = 0)
      then [SocketOnClose c] else [])
     ++ ClusterStateAdd (Subscription.name sub)
     :: (if subscriptionListener st
         then [ListenerOnSubscriptionMade (Subscription.name sub) c] else [])).
Proof.
  intros Hr. unfold addSocket. rewrite Hr.
  destruct (bool_decide _); destruct (subscriptionListener st) eqn:Hl;
    cbn; rewrite ?Hl; cbn; unfold with_sockets; cbn;
    rewrite ?insert_insert_eq; reflexivity.
Qed.

Lemma removeSocket_eq st r c sub :
  heap st !! r = Some sub →
  removeSocket r c st =
    (with_sockets (forget r c)
       (with_subscriptions
          (if bool_decide (length (Subscription.sockets sub) = 0)
           then delete (Subscription.name sub) else id) st),
     (if bool_decide (length (Subscription.sockets sub) = 0)
      then [SocketRemoveOnClose c] else [])
     ++ (if subscriptionListener st
         then [ListenerOnSubscriptionRemoved (Subscription.name sub) c] else [])
     ++ [ClusterStateRemove (Subscription.name sub)]).
Proof.
  intros Hr. unfold removeSocket. rewrite Hr.
  destruct (bool_decide _); destruct (subscriptionListener st) eqn:Hl;
    cbn; rewrite ?Hl; cbn; reflexivity.
Qed.

(** The tail of a successful [subscribe]. *)
Lemma join_eq st r c sub name message silent :
  heap st !! r = Some sub →
  Subscription.name sub = name →
  ( sockets_add r c ;; addSocket r c ;;
    when (negb silent)
      ( when (shouldLog DEBUG) (emit (LoggerDebug (constant st "SUBSCRIBE") name c)) ;;
        emit (SocketSendAckMessage c message) ) ) st
  = (joined st r c sub, join_trace shouldLog st name message c silent).
Proof.
  intros Hr <-. unfold seq at 1, sockets_add. rewrite Hr. cbn.
  unfold seq at 1. erewrite addSocket_eq.
  2:{ cbn. apply list_lookup_insert_eq. by eapply lookup_lt_Some. }
  cbn. unfold join_trace, joined.
  destruct silent, (shouldLog DEBUG); cbn; rewrite ?app_nil_r; try reflexivity;
    f_equal; rewrite <- ?app_assoc; cbn; try reflexivity.
  all: f_equal; f_equal; destruct (subscriptionListener st); reflexivity.
Qed.

(** The removal both [unsubscribe] and the close hook perform. *)
Lemma drop_eq st r c sub :
  heap st !! r = Some sub →
  (sockets_delete r c ;; removeSocket r c) st = (dropped st r c sub, drop_trace st c sub).
Proof.
  intros Hr. unfold seq, sockets_delete. rewrite Hr. cbn.
  erewrite removeSocket_eq.
  2:{ cbn. apply list_lookup_insert_eq. by eapply lookup_lt_Some. }
  reflexivity.
Qed.

Lemma subscribe_absent st name message c silent :
  subscriptions st !! name = None →
  subscribe shouldLog name message c silent st =
    (joined (installed st name) (length (heap st)) c (Subscription.mk name []),
     join_trace shouldLog st name message c silent).
Proof.
  intros Hn. unfold subscribe. rewrite Hn. cbv beta iota zeta.
  cbn [heap with_heap]. rewrite lookup_app_r by done. rewrite Nat.sub_diag.
  cbn [lookup list_lookup Subscription.sockets length].
  rewrite bool_decide_eq_true_2 by done. rewrite modify_seq.
  refine (join_eq (installed st name) (length (heap st)) c
            (Subscription.mk name []) name message silent _ _); [|done].
  cbn. rewrite lookup_app_r by done. by rewrite Nat.sub_diag.
Qed.

Lemma subscribe_duplicate st name message c silent r sub :
  subscriptions st !! name = Some r →
  heap st !! r = Some sub →
  c ∈ Subscription.sockets sub →
  subscribe shouldLog name message c silent st =
    (st, duplicate_trace shouldLog st name message c).
Proof.
  intros Hn Hr Hc. unfold subscribe. rewrite Hn, Hr.
  rewrite bool_decide_eq_false_2.
  2:{ rewrite length_zero_nil. intros E. rewrite E in Hc. by apply not_elem_of_nil in Hc. }
  unfold set_has. rewrite bool_decide_eq_true_2 by done.
  unfold duplicate_trace. destruct (shouldLog WARN); reflexivity.
Qed.

Lemma subscribe_present st name message c silent r sub :
  subscriptions st !! name = Some r →
  heap st !! r = Some sub →
  Subscription.name sub = name →
  Subscription.sockets sub ≠ [] →
  c ∉ Subscription.sockets sub →
  subscribe shouldLog name message c silent st =
    (joined st r c sub, join_trace shouldLog st name message c silent).
Proof.
  intros Hn Hr Hnm Hne Hc. unfold subscribe. rewrite Hn, Hr.
  rewrite bool_decide_eq_false_2 by by rewrite length_zero_nil.
  unfold set_has. rewrite bool_decide_eq_false_2 by done.
  by apply join_eq.
Qed.

Lemma unsubscribe_member st name message c silent r sub :
  subscriptions st !! name = Some r →
  heap st !! r = Some sub →
  c ∈ Subscription.sockets sub →
  unsubscribe shouldLog name message c silent st =
    (dropped st r c sub, leave_trace shouldLog st name message c sub silent).
Proof.
  intros Hn Hr Hc. unfold unsubscribe. rewrite Hn, Hr.
  unfold set_has. rewrite bool_decide_eq_true_2 by done.
  rewrite seq_assoc. unfold seq at 1. rewrite (drop_eq st r c sub Hr).
  unfold leave_trace. destruct silent, (shouldLog DEBUG); cbn; by rewrite ?app_nil_r.
Qed.

Lemma unsubscribe_absent st name message c silent :
  subscriptions st !! name = None →
  unsubscribe shouldLog name message c silent st =
    (st, stranger_trace shouldLog st name message c silent).
Proof.
  intros Hn. unfold unsubscribe. rewrite Hn. unfold stranger_trace.
  destruct silent, (shouldLog WARN); reflexivity.
Qed.

Lemma unsubscribe_stranger st name message c silent r sub :
  subscriptions st !! name = Some r →
  heap st !! r = Some sub →
  c ∉ Subscription.sockets sub →
  unsubscribe shouldLog name message c silent st =
    (st, stranger_trace shouldLog st name message c silent).
Proof.
  intros Hn Hr Hc. unfold unsubscribe. rewrite Hn, Hr.
  unfold set_has. rewrite bool_decide_eq_false_2 by done. unfold stranger_trace.
  destruct silent, (shouldLog WARN); reflexivity.
Qed.
End Paths.

(** ** The invariant holds in every state a registry can be in *)

Section Invariant.
Variable shouldLog : LOG_LEVEL → bool.

Lemma Inv_new T t st : DefaultSubscriptionRegistry T t = Some st → Inv st.
Proof.
  unfold DefaultSubscriptionRegistry. destruct (select_actions T t); [|done].
  intros [= <-]. split; cbn; intros *; by rewrite lookup_empty.
Qed.

Lemma Inv_dropped st r c sub :
  Inv st →
  heap st !! r = Some sub →
  subscriptions st !! Subscription.name sub = Some r →
  Inv (dropped st r c sub).
Proof.
  intros [I1 I2 I3] Hr Hn.
  assert (Hlt : r < length (heap st)) by by eapply lookup_lt_Some.
  set (rest := set_delete c (Subscription.sockets sub)).
  assert (Hsubs : ∀ name r',
    subscriptions (dropped st r c sub) !! name = Some r' →
    subscriptions st !! name = Some r' ∧ (r' = r → rest ≠ [])).
  { intros name r'. unfold dropped; cbn. fold rest.
    case_bool_decide as He; cbn.
    - rewrite lookup_delete_Some. intros [Hne Hl]. split; [done|].
      intros ->. destruct (I1 _ _ Hl) as (sub' & Hs' & Hnm & _). congruence.
    - intros Hl. split; [done|]. intros _. by rewrite <- length_zero_nil. }
  assert (Hkeep : ∀ sub' r', r' ≠ r →
    subscriptions st !! Subscription.name sub' = Some r' →
    subscriptions (dropped st r c sub) !! Subscription.name sub' = Some r').
  { intros sub' r' Hne Hl. unfold dropped; cbn. case_bool_decide; cbn; [|done].
    rewrite lookup_delete_ne; [done|]. intros Heq. rewrite <- Heq in Hl. congruence. }
  split.
  - intros name r' Hl. destruct (Hsubs _ _ Hl) as [Hl0 Hne].
    destruct (I1 _ _ Hl0) as (sub' & Hs' & Hnm & Hnn).
    unfold dropped; cbn. destruct (decide (r' = r)) as [->|Hd].
    + rewrite list_lookup_insert_eq by done. eexists; split; [done|]. cbn.
      split; [congruence | by apply Hne].
    + rewrite list_lookup_insert_ne by done. eauto.
  - intros c' held' r' Hh Hin.
    assert (∃ held, sockets st !! c' = Some held ∧ r' ∈ held ∧ (c' = c → r' ≠ r))
      as (held & Hh0 & Hin0 & Hcr).
    { revert Hh. unfold dropped; cbn. rewrite lookup_forget.
      case_decide as Hc.
      - destruct (sockets st !! c') as [held|] eqn:E; cbn; [|done].
        intros [= <-]. apply elem_of_set_delete in Hin as [? ?]. eauto.
      - intros Hh. exists held'. split; [done|]. split; [done|]. congruence. }
    destruct (I2 _ _ _ Hh0 Hin0) as (sub' & Hs' & Hnm & Hc').
    destruct (decide (r' = r)) as [->|Hd].
    + assert (sub' = sub) as -> by congruence.
      assert (Hc'' : c' ∈ rest).
      { apply elem_of_set_delete. split; [done|]. intros ->. by apply Hcr. }
      exists (Subscription.mk (Subscription.name sub) rest). split.
      { unfold dropped; cbn. by apply list_lookup_insert_eq. }
      cbn. split; [|done].
      unfold dropped; cbn. fold rest. case_bool_decide as He; cbn; [|done].
      apply length_zero_nil in He. rewrite He in Hc''. by apply not_elem_of_nil in Hc''.
    + exists sub'. split.
      { unfold dropped; cbn. by rewrite list_lookup_insert_ne. }
      split; [by apply Hkeep | done].
  - intros c' held'. unfold dropped; cbn. rewrite lookup_forget.
    case_decide.
    + destruct (sockets st !! c') as [held|] eqn:E; cbn; [|done].
      intros [= <-]. apply NoDup_filter. eauto.
    + eauto.
Qed.

Lemma Joining_Inv st r sub :
  Inv st → heap st !! r = Some sub →
  subscriptions st !! Subscription.name sub = Some r →
  Joining st r sub.
Proof.
  intros [I1 I2 I3] Hr Hn. split; try done.
  intros name r' Hl. destruct (I1 _ _ Hl) as (sub' & ? & ? & ?). eauto.
Qed.

Lemma Joining_installed st name :
  Inv st → subscriptions st !! name = None →
  Joining (installed st name) (length (heap st)) (Subscription.mk name []).
Proof.
  intros [I1 I2 I3] Hn. split; cbn.
  - rewrite lookup_app_r by done. by rewrite Nat.sub_diag.
  - apply lookup_insert_eq.
  - intros name' r'. rewrite lookup_insert. case_decide as Hd.
    + intros [= <-]. subst name'. eexists. split.
      { rewrite lookup_app_r by done. by rewrite Nat.sub_diag. }
      done.
    + intros Hl. destruct (I1 _ _ Hl) as (sub' & Hs & ? & ?).
      exists sub'. rewrite lookup_app_l by by eapply lookup_lt_Some. eauto.
  - intros c held r' Hh Hin. destruct (I2 _ _ _ Hh Hin) as (sub' & Hs & Hl & ?).
    exists sub'. rewrite lookup_app_l by by eapply lookup_lt_Some.
    split; [done|]. split; [|done].
    rewrite lookup_insert_ne; [done|]. intros E. rewrite <- E in Hl. congruence.
  - eauto.
Qed.

Lemma Inv_joined st r c sub :
  Joining st r sub → Inv (joined st r c sub).
Proof.
  intros [Hr Hn J1 J2 J3].
  assert (Hlt : r < length (heap st)) by by eapply lookup_lt_Some.
  split.
  - intros name r' Hl. cbn in Hl.
    destruct (J1 _ _ Hl) as (sub' & Hs & Hnm & Hne).
    unfold joined; cbn. destruct (decide (r' = r)) as [->|Hd].
    + rewrite list_lookup_insert_eq by done. eexists. split; [done|]. cbn.
      split; [congruence | apply set_add_not_nil].
    + rewrite list_lookup_insert_ne by done. eauto.
  - intros c' held' r' Hh Hin. revert Hh. unfold joined; cbn.
    assert (Hnew : ∀ c'', (c'' = c ∨ c'' ∈ Subscription.sockets sub) →
      ∃ sub', <[r := Subscription.mk (Subscription.name sub)
                      (set_add c (Subscription.sockets sub))]> (heap st) !! r = Some sub'
              ∧ subscriptions st !! Subscription.name sub' = Some r
              ∧ c'' ∈ Subscription.sockets sub').
    { intros c'' Hc. eexists. split; [by apply list_lookup_insert_eq|]. cbn.
      split; [done|]. by apply elem_of_set_add. }
    assert (Hold : ∀ held, sockets st !! c' = Some held → r' ∈ held →
      ∃ sub', <[r := Subscription.mk (Subscription.name sub)
                      (set_add c (Subscription.sockets sub))]> (heap st) !! r' = Some sub'
              ∧ subscriptions st !! Subscription.name sub' = Some r'
              ∧ c' ∈ Subscription.sockets sub').
    { intros held Hh0 Hin0. destruct (J2 _ _ _ Hh0 Hin0) as (sub' & Hs & Hl & Hc).
      destruct (decide (r' = r)) as [->|Hd].
      - apply Hnew. right. congruence.
      - exists sub'. by rewrite list_lookup_insert_ne. }
    rewrite lookup_insert. case_decide as Hc.
    + intros [= <-]. subst c'. apply elem_of_set_add in Hin as [->|Hin].
      * apply Hnew. by left.
      * destruct (sockets st !! c) as [held|] eqn:E; cbn in Hin.
        -- by eapply Hold.
        -- by apply not_elem_of_nil in Hin.
    + intros Hh. by eapply Hold.
  - intros c' held'. unfold joined; cbn. rewrite lookup_insert. case_decide.
    + intros [= <-]. apply NoDup_set_add.
      destruct (sockets st !! c) eqn:E; cbn; [eauto | apply NoDup_nil_2].
    + eauto.
Qed.

Lemma Inv_subscribe st name message c silent :
  Inv st → Inv (subscribe shouldLog name message c silent st).1.
Proof.
  intros HI. destruct (subscriptions st !! name) as [r|] eqn:Hn.
  - destruct (inv_installed _ HI _ _ Hn) as (sub & Hr & Hnm & Hne).
    destruct (decide (c ∈ Subscription.sockets sub)) as [Hc|Hc].
    + by erewrite subscribe_duplicate.
    + erewrite subscribe_present by done. cbn.
      apply Inv_joined, Joining_Inv; [done..|]. by rewrite Hnm.
  - rewrite subscribe_absent by done. cbn.
    by apply Inv_joined, Joining_installed.
Qed.

Lemma Inv_unsubscribe st name message c silent :
  Inv st → Inv (unsubscribe shouldLog name message c silent st).1.
Proof.
  intros HI. destruct (subscriptions st !! name) as [r|] eqn:Hn.
  - destruct (inv_installed _ HI _ _ Hn) as (sub & Hr & Hnm & Hne).
    destruct (decide (c ∈ Subscription.sockets sub)) as [Hc|Hc].
    + erewrite unsubscribe_member by done. cbn.
      apply Inv_dropped; [done..|]. by rewrite Hnm.
    + by erewrite unsubscribe_stranger.
  - by rewrite unsubscribe_absent.
Qed.

(** One turn of the close hook's loop, for a subscription still held. *)
Lemma close_turn st c held r :
  Inv st → sockets st !! c = Some held → r ∈ held →
  ∃ sub, heap st !! r = Some sub
         ∧ subscriptions st !! Subscription.name sub = Some r
         ∧ (sockets_delete r c ;; removeSocket r c) st
           = (dropped st r c sub, drop_trace st c sub).
Proof.
  intros HI Hh Hin. destruct (inv_held _ HI _ _ _ Hh Hin) as (sub & Hr & Hn & _).
  exists sub. split; [done|]. split; [done|]. by apply drop_eq.
Qed.

Lemma Inv_forOfLive c pending st :
  Inv st →
  Inv (forOfLive c pending
         (λ r, sockets_delete r c ;; removeSocket r c) st).1.
Proof.
  revert st. induction pending as [|r pending IH]; intros st HI; cbn [forOfLive]; [done|].
  rewrite seq_fst. apply IH. unfold set_has. case_bool_decide as Hin; [|done].
  destruct (sockets st !! c) as [held|] eqn:Hh; cbn in Hin.
  - destruct (close_turn st c held r HI Hh Hin) as (sub & Hr & Hn & ->). cbn.
    by apply Inv_dropped.
  - by apply not_elem_of_nil in Hin.
Qed.

Lemma Inv_onSocketClose st c : Inv st → Inv (onSocketClose c st).1.
Proof.
  intros HI. unfold onSocketClose. destruct (sockets st !! c); [|done].
  by apply Inv_forOfLive.
Qed.

Lemma Inv_run st call : Inv st → Inv (run shouldLog call st).1.
Proof.
  intros HI. destruct call; cbn [run].
  - by apply Inv_subscribe.
  - by apply Inv_unsubscribe.
  - unfold subscribeBulk. rewrite seq_fst.
    assert (Inv (forEach (msg_names message)
                   (λ name, subscribe shouldLog name message socket true) st).1) as HI'.
    { apply (forEach_preserves Inv); [|done]. intros. by apply Inv_subscribe. }
    by destruct silent.
  - unfold unsubscribeBulk. rewrite seq_fst.
    assert (Inv (forEach (msg_names message)
                   (λ name, unsubscribe shouldLog name message socket true) st).1) as HI'.
    { apply (forEach_preserves Inv); [|done]. intros. by apply Inv_unsubscribe. }
    by destruct silent.
  - by apply Inv_onSocketClose.
  - destruct HI. by split.
  - destruct HI. by split.
Qed.

Lemma reachable_Inv st : reachable shouldLog st → Inv st.
Proof.
  induction 1 as [T t st Hnew|st call _ IH].
  - by eapply Inv_new.
  - by apply Inv_run.
Qed.

Lemma reachable_run_all st calls :
  reachable shouldLog st → reachable shouldLog (run_all shouldLog calls st).1.
Proof.
  revert st. induction calls as [|call calls IH]; intros st Hst; cbn [run_all]; [done|].
  rewrite seq_fst. apply IH. by constructor.
Qed.
End Invariant.

(** ** Lookups *)

(** C10: for a name without an entry in [this.subscriptions],
    [getLocalSubscribers] returns an empty set -- a set, not [null], whatever
    its documentation comment says. *)
Theorem getLocalSubscribers_no_entry st name :
  subscriptions st !! name = None → getLocalSubscribers st name = [].
Proof. intros Hn. unfold getLocalSubscribers. by rewrite Hn. Qed.

Lemma getLocalSubscribers_no_entry_witness :
  subscriptions Sample.empty !! "room/1" = None
  ∧ getLocalSubscribers Sample.empty "room/1" = [].
Proof.
  split; [reflexivity|].
  apply (getLocalSubscribers_no_entry Sample.empty "room/1"). reflexivity.
Defined.

Lemma reachable_sample shouldLog : reachable shouldLog Sample.empty.
Proof. by apply (reachable_new shouldLog Sample.tables EVENT). Qed.

(** C9: in every state a registry can reach through [subscribe],
    [unsubscribe], the bulk operations and the close hook, no entry of
    [this.subscriptions] has an empty socket set; hence
    [hasLocalSubscribers name] is [true] exactly when
    [getLocalSubscribers name] is non-empty. *)
Theorem no_empty_subscription shouldLog st :
  reachable shouldLog st →
  (∀ name r, subscriptions st !! name = Some r →
     ∃ sub, heap st !! r = Some sub ∧ Subscription.sockets sub ≠ [])
  ∧ (∀ name, hasLocalSubscribers st name = true ↔ getLocalSubscribers st name ≠ []).
Proof.
  intros HI%reachable_Inv. split.
  - intros name r Hn. destruct (inv_installed _ HI _ _ Hn) as (sub & ? & _ & ?). eauto.
  - intros name. unfold hasLocalSubscribers, getLocalSubscribers.
    rewrite bool_decide_eq_true. destruct (subscriptions st !! name) as [r|] eqn:Hn.
    + destruct (inv_installed _ HI _ _ Hn) as (sub & -> & _ & ?). split; [done|eauto].
    + split; [by intros [? ?] | done].
Qed.

Lemma no_empty_subscription_witness :
  let st := (run_all Sample.quiet
               [ Subscribe "a" (Sample.request 3 "a") 1 false;
                 Subscribe "b" (Sample.request 3 "b") 1 false;
                 Unsubscribe "a" (Sample.request 4 "a") 1 false ] Sample.empty).1 in
  reachable Sample.quiet st
  ∧ (hasLocalSubscribers st "a" = true ↔ getLocalSubscribers st "a" ≠ [])
  ∧ (hasLocalSubscribers st "b" = true ↔ getLocalSubscribers st "b" ≠ []).
Proof.
  intros st.
  assert (reachable Sample.quiet st) as Hst
    by apply reachable_run_all, reachable_sample.
  split; [exact Hst|].
  split; apply (no_empty_subscription Sample.quiet st Hst).
Defined.

(** ** Events of a class *)

Lemma filter_none (p : Event → bool) (t : list Event) :
  Forall (λ e, p e = false) t → List.filter p t = [].
Proof.
  induction 1 as [|e t He _ IH]; cbn; [done|]. by rewrite He.
Qed.

(** ** Fanout *)

Section Fanout.
Variable shouldLog : LOG_LEVEL → bool.
Variable getMessage : nat → Message → list Byte.byte.

Lemma forwarded_sends M sender suppressRemote :
  List.filter is_cluster_send (forwarded M sender suppressRemote)
  = forwarded M sender suppressRemote.
Proof. unfold forwarded. by destruct (_ && _). Qed.

Lemma elem_of_forwarded e M sender suppressRemote :
  e ∈ forwarded M sender suppressRemote ↔
  e = ClusterNodeSend M ∧ sender ≠ None ∧ suppressRemote = false.
Proof.
  unfold forwarded. case_bool_decide as Hs; destruct suppressRemote; cbn;
    rewrite ?elem_of_nil, ?list_elem_of_singleton; intuition congruence.
Qed.

(** Without a subscription for the name only the forwarding happens. *)
Lemma sendToSubscribers_no_entry st name M noDelay sender suppressRemote :
  subscriptions st !! name = None →
  sendToSubscribers getMessage name M noDelay sender suppressRemote st
  = (forwarded M sender suppressRemote, Returns).
Proof. intros Hn. unfold sendToSubscribers. by rewrite Hn. Qed.

(** With a subscription, which has a first subscriber, the broadcast is
    reported and the built message delivered. *)
Lemma sendToSubscribers_entry st name M noDelay sender suppressRemote r sub first rest :
  subscriptions st !! name = Some r →
  heap st !! r = Some sub →
  Subscription.sockets sub = first :: rest →
  sendToSubscribers getMessage name M noDelay sender suppressRemote st
  = (forwarded M sender suppressRemote
     ++ MonitoringOnBroadcast M (length (Subscription.sockets sub))
     :: map (λ socket, SocketSendBuiltMessage socket (getMessage first M) true)
            (filter (λ socket, Some socket ≠ sender) (Subscription.sockets sub)),
     Returns).
Proof.
  intros Hn Hr Hs. unfold sendToSubscribers. rewrite Hn, Hr.
  cbn [fmap option_fmap option_map default from_option id]. by rewrite Hs.
Qed.

(** C5: [sendToSubscribers name M noDelay sender suppressRemote] forwards
    [M] to the cluster node iff [sender] is not null and [suppressRemote] is
    false -- so never for a null sender; when a local subscription for
    [name] exists it reports [onBroadcast(M, n)] with [n] the number of all
    subscribers, the sender included, and hands the bytes built by the first
    subscriber to [sendBuiltMessage] of every subscriber but the sender, in
    the order of the set. *)
Theorem sendToSubscribers_fanout st name M noDelay sender suppressRemote :
  reachable shouldLog st →
  let out := sendToSubscribers getMessage name M noDelay sender suppressRemote st in
  (ClusterNodeSend M ∈ out.1 ↔ sender ≠ None ∧ suppressRemote = false)
  ∧ (sender = None → ClusterNodeSend M ∉ out.1)
  ∧ List.filter is_cluster_send out.1 = forwarded M sender suppressRemote
  ∧ out.2 = Returns
  ∧ match subscriptions st !! name with
    | None => out.1 = forwarded M sender suppressRemote
    | Some r =>
        ∃ sub first,
          heap st !! r = Some sub
          ∧ head (Subscription.sockets sub) = Some first
          ∧ out.1 =
              forwarded M sender suppressRemote
              ++ MonitoringOnBroadcast M (length (Subscription.sockets sub))
              :: map (λ socket, SocketSendBuiltMessage socket (getMessage first M) true)
                     (filter (λ socket, Some socket ≠ sender) (Subscription.sockets sub))
          ∧ ∀ socket, socket ∈ Subscription.sockets sub →
              (SocketSendBuiltMessage socket (getMessage first M) true ∈ out.1
               ↔ Some socket ≠ sender)
    end.
Proof.
  intros HI%reachable_Inv out. unfold out.
  destruct (subscriptions st !! name) as [r|] eqn:Hn.
  - destruct (inv_installed _ HI _ _ Hn) as (sub & Hr & _ & Hne).
    destruct (Subscription.sockets sub) as [|first rest] eqn:Hs; [done|].
    erewrite sendToSubscribers_entry by done. rewrite Hs. cbn [fst snd].
    set (built := map _ _).
    assert (Hbuilt : ∀ e, e ∈ built ↔
      ∃ socket, e = SocketSendBuiltMessage socket (getMessage first M) true
                ∧ socket ∈ first :: rest ∧ Some socket ≠ sender).
    { intros e. unfold built. rewrite list_elem_of_fmap. split.
      - intros (socket & -> & [? ?]%list_elem_of_filter). eauto.
      - intros (socket & -> & ? & ?). exists socket. by rewrite list_elem_of_filter. }
    assert (Hin : ∀ e, e ∈ forwarded M sender suppressRemote
                         ++ MonitoringOnBroadcast M (length (first :: rest)) :: built ↔
      (e = ClusterNodeSend M ∧ sender ≠ None ∧ suppressRemote = false)
      ∨ e = MonitoringOnBroadcast M (length (first :: rest))
      ∨ e ∈ built).
    { intros e. by rewrite elem_of_app, elem_of_cons, elem_of_forwarded. }
    split; [|split; [|split; [|split; [done|]]]].
    + rewrite Hin, Hbuilt. split; [|tauto].
      intros [?|[?|(? & ? & _)]]; [tauto | done..].
    + intros ->. rewrite Hin, Hbuilt.
      intros [(_ & ? & _)|[?|(? & ? & _)]]; done.
    + rewrite List.filter_app, forwarded_sends. cbn [List.filter is_cluster_send].
      rewrite filter_none, app_nil_r; [done|].
      apply Forall_forall. intros e He. apply Hbuilt in He as (socket & -> & _). done.
    + exists sub, first. rewrite Hs. split; [done|]. split; [done|]. split; [done|].
      intros socket Hsocket. rewrite Hin, Hbuilt. split.
      * intros [(? & _)|[?|(? & [= <-] & _ & ?)]]; done.
      * intros ?. right. right. by exists socket.
  - rewrite sendToSubscribers_no_entry by done. cbn [fst snd].
    split; [|split; [|split; [|done]]].
    + rewrite elem_of_forwarded. tauto.
    + intros ->. rewrite elem_of_forwarded. by intros (_ & ? & _).
    + apply forwarded_sends.
Qed.

End Fanout.

Lemma sendToSubscribers_fanout_witness :
  let st := (run_all Sample.quiet
               [ Subscribe "room/1" (Sample.request 3 "room/1") 1 true;
                 Subscribe "room/1" (Sample.request 3 "room/1") 2 true;
                 Subscribe "room/1" (Sample.request 3 "room/1") 3 true ] Sample.empty).1 in
  let M := Sample.request 7 "room/1" in
  reachable Sample.quiet st
  ∧ (sendToSubscribers Sample.render "room/1" M false (Some 2) false st).2 = Returns.
Proof.
  intros st M.
  assert (reachable Sample.quiet st) as Hst
    by apply reachable_run_all, reachable_sample.
  split; [exact Hst|].
  apply (sendToSubscribers_fanout Sample.quiet Sample.render
           st "room/1" M false (Some 2) false Hst).
Defined.

(** ** Bulk operations *)

Section Bulk.
Variable shouldLog : LOG_LEVEL → bool.

Lemma forEach_subscribe_run_all names message c st :
  forEach names (λ name, subscribe shouldLog name message c true) st
  = run_all shouldLog (map (λ name, Subscribe name message c true) names) st.
Proof.
  revert st. induction names as [|name names IH]; intros st; [done|].
  cbn [forEach map run_all run]. unfold seq.
  destruct (subscribe shouldLog name message c true st) as [st1 t1]. by rewrite IH.
Qed.

(** A silent [subscribe] sends no ACK, in any state. *)
Lemma subscribe_silent_no_ack st name message c :
  Forall (λ e, is_ack e = false) (subscribe shouldLog name message c true st).2.
Proof.
  unfold subscribe, seq, sockets_add, addSocket, when, emit, modify, skip.
  repeat (case_match; cbn in *; simplify_eq); repeat constructor.
Qed.

(** A silent [unsubscribe] sends no protocol reply, in any state. *)
Lemma unsubscribe_silent_no_reply st name message c :
  Forall (λ e, is_reply e = false) (unsubscribe shouldLog name message c true st).2.
Proof.
  unfold unsubscribe, seq, sockets_delete, removeSocket, when, emit, modify, skip.
  repeat (case_match; cbn in *; simplify_eq); repeat constructor.
Qed.

(** C7: [subscribeBulk] runs [subscribe] with [silent = true] for each
    name of [message.names], in order, and then sends one ACK carrying the
    bulk message's topic, action and correlationId iff its own [silent] is
    false; the per-name calls send no ACK. *)
Theorem subscribeBulk_single_ack st message c silent :
  let inner :=
    run_all shouldLog
      (map (λ name, Subscribe name message c true) (msg_names message)) st in
  let ack :=
    SocketSendAckMessage c
      (mkMessage (msg_topic message) (msg_action message) None None []
                 (msg_correlationId message) None) in
  let out := subscribeBulk shouldLog message c silent st in
  out.1 = inner.1
  ∧ out.2 = inner.2 ++ (if silent then [] else [ack])
  ∧ List.filter is_ack inner.2 = []
  ∧ List.filter is_ack out.2 = if silent then [] else [ack].
Proof.
  intros inner ack out.
  assert (Hinner : List.filter is_ack inner.2 = []).
  { apply filter_none. unfold inner. rewrite <- forEach_subscribe_run_all.
    apply forEach_events. intros. apply subscribe_silent_no_ack. }
  assert (Hout : out = (inner.1, inner.2 ++ (if silent then [] else [ack]))).
  { unfold out, subscribeBulk, inner, seq. rewrite forEach_subscribe_run_all.
    destruct (run_all _ _ st) as [st1 t1].
    destruct silent; reflexivity. }
  rewrite Hout. cbn [fst snd]. split; [done|]. split; [done|]. split; [done|].
  rewrite List.filter_app, Hinner. by destruct silent.
Qed.
End Bulk.

(** ** Action binding *)

(** C8, as the code has it: [setAction name value] rejects nothing.  It
    binds the upper-cased [name] to [value] in the constants table: a
    canonical slot is rebound, any other name becomes a key of the table, and
    every other key keeps its value.  Stated for names of ASCII characters,
    where [toUpperCase] is the upper-casing of the code. *)
Theorem setAction_binds name value st :
  ascii_only name = true →
  let st' := (setAction name value st).1 in
  constants st' !! toUpperCase name = Some (Some value)
  ∧ constant st' (toUpperCase name) = Some value
  ∧ (∀ slot, slot ≠ toUpperCase name → constants st' !! slot = constants st !! slot)
  ∧ dom (constants st') = ({[toUpperCase name]} ∪ dom (constants st))
  ∧ sockets st' = sockets st ∧ subscriptions st' = subscriptions st
  ∧ (setAction name value st).2 = [].
Proof.
  intros _.
  cbn. unfold constant. cbn. rewrite lookup_insert_eq. split; [done|]. split; [done|].
  split; [|split; [apply dom_insert_L | done]].
  intros slot Hne. by rewrite lookup_insert_ne.
Qed.

Lemma setAction_binds_witness :
  ascii_only "Not_Subscribed" = true
  ∧ toUpperCase "Not_Subscribed" = "NOT_SUBSCRIBED"
  ∧ constant (setAction "Not_Subscribed" 7 Sample.empty).1 "NOT_SUBSCRIBED" = Some 7
  ∧ constant (setAction "Not_Subscribed" 7 Sample.empty).1 "SUBSCRIBE"
    = constant Sample.empty "SUBSCRIBE".
Proof.
  assert (ascii_only "Not_Subscribed" = true) as Hascii by reflexivity.
  split; [exact Hascii|]. split; [reflexivity|].
  pose proof (setAction_binds "Not_Subscribed" 7 Sample.empty Hascii)
    as (_ & Hbound & Hkeep & _).
  split; [exact Hbound|].
  unfold constant. by rewrite (Hkeep "SUBSCRIBE").
Defined.

(** C8, counterexample: [setAction("listen", 42)] is not rejected, and the
    table gains the key [LISTEN], which is none of the four slots. *)
Lemma setAction_adds_unknown_key :
  toUpperCase "listen" = "LISTEN"
  ∧ ("LISTEN" ∉ canonical)
  ∧ constants Sample.empty !! "LISTEN" = None
  ∧ constants (setAction "listen" 42 Sample.empty).1 !! "LISTEN" = Some (Some 42).
Proof.
  split; [reflexivity|]. split; [|split; reflexivity].
  unfold canonical. intros Hin.
  repeat (apply elem_of_cons in Hin as [Hin|Hin]; [discriminate|]).
  by apply elem_of_nil in Hin.
Qed.

(** ** Subscribing *)

Lemma elem_of_getLocalSubscribers st name c :
  c ∈ getLocalSubscribers st name ↔
  ∃ r sub, subscriptions st !! name = Some r ∧ heap st !! r = Some sub
           ∧ c ∈ Subscription.sockets sub.
Proof.
  unfold getLocalSubscribers. split.
  - destruct (subscriptions st !! name) as [r|]; [|by intros ?%elem_of_nil].
    destruct (heap st !! r) as [sub|] eqn:Hr; [|by intros ?%elem_of_nil].
    intros Hc. by exists r, sub.
  - intros (r & sub & -> & -> & ?). done.
Qed.

Section Subscribing.
Variable shouldLog : LOG_LEVEL → bool.

(** After [subscribe name _ c _] the connection is a subscriber of [name];
    topic, constants and listener are as before. *)
Lemma subscribe_post st name message c silent :
  Inv st →
  let st' := (subscribe shouldLog name message c silent st).1 in
  c ∈ getLocalSubscribers st' name
  ∧ topic st' = topic st ∧ constants st' = constants st
  ∧ subscriptionListener st' = subscriptionListener st.
Proof.
  intros HI. cbn zeta. rewrite elem_of_getLocalSubscribers.
  destruct (subscriptions st !! name) as [r|] eqn:Hn.
  - destruct (inv_installed _ HI _ _ Hn) as (sub & Hr & Hnm & Hne).
    destruct (decide (c ∈ Subscription.sockets sub)) as [Hc|Hc].
    + erewrite subscribe_duplicate by done. cbn. split; [|done]. eauto.
    + erewrite subscribe_present by done. cbn. split; [|done].
      eexists r, _. split; [done|]. split.
      * apply list_lookup_insert_eq. by eapply lookup_lt_Some.
      * cbn. apply elem_of_set_add. by left.
  - rewrite subscribe_absent by done. cbn. split; [|done].
    eexists _, _. split; [apply lookup_insert_eq|]. split.
    + apply list_lookup_insert_eq. rewrite length_app. cbn. lia.
    + cbn. apply elem_of_set_add. by left.
Qed.

(** [subscribe] removes no subscriber. *)
Lemma subscribe_keeps st name message c silent name0 c0 :
  Inv st →
  c0 ∈ getLocalSubscribers st name0 →
  c0 ∈ getLocalSubscribers (subscribe shouldLog name message c silent st).1 name0.
Proof.
  intros HI. rewrite !elem_of_getLocalSubscribers. intros (r0 & sub0 & Hn0 & Hr0 & Hc0).
  assert (Hlt : r0 < length (heap st)) by by eapply lookup_lt_Some.
  destruct (subscriptions st !! name) as [r|] eqn:Hn.
  - destruct (inv_installed _ HI _ _ Hn) as (sub & Hr & Hnm & Hne).
    destruct (decide (c ∈ Subscription.sockets sub)) as [Hc|Hc].
    + erewrite subscribe_duplicate by done. cbn. eauto.
    + erewrite subscribe_present by done. cbn.
      destruct (decide (r0 = r)) as [->|Hd].
      * eexists r, _. split; [done|]. split; [by apply list_lookup_insert_eq|].
        cbn. apply elem_of_set_add. right. congruence.
      * exists r0, sub0. by rewrite list_lookup_insert_ne.
  - rewrite subscribe_absent by done. cbn.
    exists r0, sub0. split.
    + rewrite lookup_insert_ne; [done|]. congruence.
    + rewrite list_lookup_insert_ne by lia. by rewrite lookup_app_l.
Qed.

(** C4: a second [subscribe name m c] leaves the registry as the first
    left it, makes no call on the cluster state, and sends [c] one
    MULTIPLE_SUBSCRIPTIONS message [{topic, action, originalAction = m.action,
    name}] and no ACK. *)
Theorem subscribe_twice st name m c silent1 silent2 :
  reachable shouldLog st →
  let once := subscribe shouldLog name m c silent1 st in
  let twice := subscribe shouldLog name m c silent2 once.1 in
  let reply :=
    SocketSendMessage c
      {| msg_topic := topic st;
         msg_action := constant st "MULTIPLE_SUBSCRIPTIONS";
         msg_originalAction := msg_action m;
         msg_name := Some name;
         msg_names := [];
         msg_correlationId := None;
         msg_data := None |} in
  twice.1 = once.1
  ∧ twice.2 =
      (if shouldLog WARN
       then [LoggerWarn (constant st "MULTIPLE_SUBSCRIPTIONS") name c] else [])
      ++ [reply]
  ∧ List.filter is_reply twice.2 = [reply]
  ∧ List.filter is_ack twice.2 = []
  ∧ List.filter is_cluster_add twice.2 = [].
Proof.
  intros HI%reachable_Inv once twice reply.
  destruct (subscribe_post st name m c silent1 HI) as (Hc & Ht & Hk & _).
  fold once in Hc, Ht, Hk.
  apply elem_of_getLocalSubscribers in Hc as (r & sub & Hn & Hr & Hc).
  assert (twice = (once.1, duplicate_trace shouldLog once.1 name m c)) as ->
    by by eapply subscribe_duplicate.
  unfold duplicate_trace, multipleSubscriptions, constant. rewrite Ht, Hk.
  fold (constant st "MULTIPLE_SUBSCRIPTIONS"). fold reply. cbn [fst snd].
  split; [done|]. split; [done|]. by destruct (shouldLog WARN).
Qed.
End Subscribing.

Lemma subscribe_twice_witness :
  let once := subscribe Sample.quiet "x" (Sample.request 3 "x") 1 false Sample.empty in
  let twice := subscribe Sample.quiet "x" (Sample.request 3 "x") 1 false once.1 in
  reachable Sample.quiet Sample.empty
  ∧ twice.1 = once.1
  ∧ List.filter is_ack twice.2 = [].
Proof.
  intros once twice.
  pose proof (reachable_sample Sample.quiet) as Hst.
  split; [exact Hst|].
  pose proof (subscribe_twice Sample.quiet Sample.empty "x" (Sample.request 3 "x") 1
                false false Hst) as (H1 & _ & _ & H4 & _).
  split; [exact H1 | exact H4].
Defined.

(** ** Protocol replies of the bulk operations *)

Section BulkReplies.
Variable shouldLog : LOG_LEVEL → bool.

Lemma forEach_subscribe_reaches names st message c name :
  Inv st →
  c ∈ getLocalSubscribers st name ∨ name ∈ names →
  let st' := (forEach names (λ n, subscribe shouldLog n message c true) st).1 in
  Inv st' ∧ c ∈ getLocalSubscribers st' name.
Proof.
  revert st. induction names as [|n names IH]; intros st HI Hor; cbn [forEach].
  - destruct Hor as [?|?%elem_of_nil]; done.
  - cbn zeta. rewrite seq_fst. apply IH; [by apply Inv_subscribe|].
    destruct Hor as [Hc|[->|Hin]%elem_of_cons].
    + left. by apply subscribe_keeps.
    + left. by apply subscribe_post.
    + by right.
Qed.

Lemma forEach_subscribe_frame names st message c :
  Inv st →
  let st' := (forEach names (λ n, subscribe shouldLog n message c true) st).1 in
  Inv st' ∧ topic st' = topic st ∧ constants st' = constants st.
Proof.
  intros HI.
  apply (forEach_preserves
           (λ s, Inv s ∧ topic s = topic st ∧ constants s = constants st)); [|done].
  intros n s (HIs & Ht & Hk).
  destruct (subscribe_post shouldLog s n message c true HIs) as (_ & Ht' & Hk' & _).
  split; [by apply Inv_subscribe|]. split; congruence.
Qed.

(** C6, as the code has it: in [subscribeBulk] a name the connection is
    already subscribed to -- before the call, or through an earlier
    occurrence in [message.names] -- is answered with MULTIPLE_SUBSCRIPTIONS;
    [unsubscribeBulk] sends no protocol reply at all: the per-name
    [unsubscribe] runs with [silent = true], and NOT_SUBSCRIBED is sent only
    when [silent] is false. *)
Theorem bulk_replies st message c silent :
  reachable shouldLog st →
  (∀ before name after,
     msg_names message = before ++ name :: after →
     c ∈ getLocalSubscribers st name ∨ name ∈ before →
     SocketSendMessage c (multipleSubscriptions st name message)
       ∈ (subscribeBulk shouldLog message c silent st).2)
  ∧ List.filter is_reply (unsubscribeBulk shouldLog message c silent st).2 = [].
Proof.
  intros HI%reachable_Inv. split.
  - intros before name after Hnames Hor.
    unfold subscribeBulk. rewrite seq_snd, Hnames, forEach_app. cbn [fst snd forEach].
    rewrite seq_snd.
    destruct (forEach_subscribe_reaches before st message c name HI Hor) as (HI1 & Hc).
    destruct (forEach_subscribe_frame before st message c HI) as (_ & Ht & Hk).
    set (st1 := (forEach before _ st).1) in *.
    apply elem_of_getLocalSubscribers in Hc as (r & sub & Hn & Hr & Hc).
    erewrite (subscribe_duplicate shouldLog st1) by done. cbn [snd].
    unfold duplicate_trace, multipleSubscriptions, constant. rewrite Ht, Hk.
    rewrite !elem_of_app. left. right. left. right. by apply list_elem_of_singleton.
  - apply filter_none. unfold unsubscribeBulk. rewrite seq_snd. apply Forall_app. split.
    + apply forEach_events. intros. apply unsubscribe_silent_no_reply.
    + destruct silent; repeat constructor.
Qed.
End BulkReplies.

Lemma bulk_replies_witness :
  let message := Sample.bulk 3 ["a"; "b"; "a"] "k" in
  reachable Sample.quiet Sample.empty
  ∧ SocketSendMessage 1 (multipleSubscriptions Sample.empty "a" message)
      ∈ (subscribeBulk Sample.quiet message 1 false Sample.empty).2
  ∧ List.filter is_reply (unsubscribeBulk Sample.quiet message 1 false Sample.empty).2 = [].
Proof.
  intros message.
  pose proof (reachable_sample Sample.quiet) as Hst.
  split; [exact Hst|].
  pose proof (bulk_replies Sample.quiet Sample.empty message 1 false Hst) as [Hdup Hnone].
  split; [|exact Hnone].
  apply (Hdup ["a"; "b"] "a" []); [reflexivity|].
  right. apply list_elem_of_here.
Defined.

(** C6, counterexample: [unsubscribeBulk] for a name the connection never
    subscribed to sends the bulk ACK and nothing else; no NOT_SUBSCRIBED
    reaches the connection. *)
Lemma unsubscribeBulk_sends_no_not_subscribed :
  let message := Sample.bulk 4 ["y"] "k" in
  let out := unsubscribeBulk Sample.quiet message 1 false Sample.empty in
  getLocalSubscribers Sample.empty "y" = []
  ∧ out.2 = [SocketSendAckMessage 1 (bulkAck message)]
  ∧ ¬ ∃ reply, SocketSendMessage 1 reply ∈ out.2.
Proof.
  cbn zeta. split; [reflexivity|].
  assert ((unsubscribeBulk Sample.quiet (Sample.bulk 4 ["y"] "k") 1 false Sample.empty).2
          = [SocketSendAckMessage 1 (bulkAck (Sample.bulk 4 ["y"] "k"))]) as -> by reflexivity.
  split; [reflexivity|].
  intros [reply Hin]. apply list_elem_of_singleton in Hin. discriminate.
Qed.

(** ** Subscribe, then unsubscribe *)

Lemma subscriptions_installed st name :
  subscriptions (installed st name) = <[name := length (heap st)]> (subscriptions st).
Proof. reflexivity. Qed.

Lemma sockets_installed st name : sockets (installed st name) = sockets st.
Proof. reflexivity. Qed.

Lemma subscriptions_joined st r c sub : subscriptions (joined st r c sub) = subscriptions st.
Proof. reflexivity. Qed.

Lemma sockets_joined st r c sub :
  sockets (joined st r c sub) = <[c := set_add r (default [] (sockets st !! c))]> (sockets st).
Proof. reflexivity. Qed.

Lemma subscriptions_dropped st r c sub :
  subscriptions (dropped st r c sub) =
    (if bool_decide (length (set_delete c (Subscription.sockets sub)) = 0)
     then delete (Subscription.name sub) else id) (subscriptions st).
Proof. reflexivity. Qed.

Lemma sockets_dropped st r c sub : sockets (dropped st r c sub) = forget r c (sockets st).
Proof. reflexivity. Qed.

Section RoundTrip.
Variable shouldLog : LOG_LEVEL → bool.

Lemma set_delete_add_nil (x : nat) : set_delete x (set_add x []) = [].
Proof.
  unfold set_delete, set_add, set_has. rewrite bool_decide_eq_false_2 by apply not_elem_of_nil.
  cbn [app]. rewrite filter_cons_False by (intros H; by apply H). apply filter_nil.
Qed.

(** C3, as the code has it: on a registry fresh from the constructor,
    [subscribe name _ c] followed by [unsubscribe name _ c] leaves no entry
    for [name] in [this.subscriptions] and has called [onClose] and then
    [removeOnClose] on [c]; the entry for [c] in [this.sockets] stays,
    holding the empty set. *)
Theorem subscribe_unsubscribe_roundtrip T t st0 name m1 m2 c silent1 silent2 :
  DefaultSubscriptionRegistry T t = Some st0 →
  let sub := subscribe shouldLog name m1 c silent1 st0 in
  let unsub := unsubscribe shouldLog name m2 c silent2 sub.1 in
  subscriptions unsub.1 = ∅
  ∧ hasLocalSubscribers unsub.1 name = false
  ∧ getLocalSubscribers unsub.1 name = []
  ∧ sockets unsub.1 = {[ c := [] ]}
  ∧ List.filter (is_close_hook c) (sub.2 ++ unsub.2)
    = [SocketOnClose c; SocketRemoveOnClose c]
  ∧ constants unsub.1 = constants st0
  ∧ subscriptionListener unsub.1 = subscriptionListener st0
  ∧ topic unsub.1 = topic st0.
Proof.
  intros Hnew. cbn zeta.
  assert (sockets st0 = ∅ ∧ subscriptions st0 = ∅ ∧ heap st0 = []) as (Hs0 & Hn0 & Hh0).
  { revert Hnew. unfold DefaultSubscriptionRegistry.
    destruct (select_actions T t); [|done]. by intros [= <-]. }
  rewrite subscribe_absent by (rewrite Hn0; apply lookup_empty).
  cbn [fst snd]. rewrite Hh0. cbn [length].
  set (st1 := joined (installed st0 name) 0 c (Subscription.mk name [])).
  assert (Hn1 : subscriptions st1 = <[name := 0]> ∅).
  { unfold st1. rewrite subscriptions_joined, subscriptions_installed. by rewrite Hn0, Hh0. }
  assert (Hs1 : sockets st1 = <[c := [0]]> ∅).
  { unfold st1. rewrite sockets_joined, sockets_installed. rewrite Hs0, lookup_empty.
    reflexivity. }
  assert (Hh1 : heap st1 !! 0 = Some (Subscription.mk name (set_add c []))).
  { unfold st1, joined, installed. cbn. by rewrite Hh0. }
  erewrite unsubscribe_member; [|by rewrite Hn1, lookup_insert_eq|exact Hh1|].
  2:{ cbn. apply elem_of_set_add. by left. }
  cbn [fst snd].
  set (st2 := dropped st1 0 c (Subscription.mk name (set_add c []))).
  assert (Hn2 : subscriptions st2 = ∅).
  { unfold st2. rewrite subscriptions_dropped. cbn [Subscription.sockets Subscription.name].
    rewrite set_delete_add_nil. cbn [length]. rewrite bool_decide_eq_true_2 by done.
    by rewrite Hn1, delete_insert_eq, delete_empty. }
  split; [done|].
  split. { unfold hasLocalSubscribers. rewrite Hn2, lookup_empty.
           apply bool_decide_eq_false_2. by intros [? ?]. }
  split. { unfold getLocalSubscribers. by rewrite Hn2, lookup_empty. }
  split. { unfold st2. rewrite sockets_dropped, Hs1. unfold forget.
           rewrite lookup_insert_eq, insert_insert_eq, insert_empty.
           unfold set_delete. rewrite filter_cons_False by (intros H; by apply H).
           by rewrite filter_nil. }
  split; [|done].
  unfold join_trace, leave_trace, drop_trace.
  cbn [Subscription.sockets Subscription.name].
  rewrite set_delete_add_nil, Hs0, lookup_empty. cbn [default length].
  rewrite !bool_decide_eq_true_2 by done.
  destruct (subscriptionListener st0), (subscriptionListener st1),
    silent1, silent2, (shouldLog DEBUG); cbn;
    rewrite ?bool_decide_eq_true_2 by done; reflexivity.
Qed.
End RoundTrip.

Lemma subscribe_unsubscribe_roundtrip_witness :
  let sub := subscribe Sample.quiet "x" (Sample.request 3 "x") 1 false Sample.empty in
  let unsub := unsubscribe Sample.quiet "x" (Sample.request 4 "x") 1 false sub.1 in
  DefaultSubscriptionRegistry Sample.tables EVENT = Some Sample.empty
  ∧ subscriptions unsub.1 = ∅
  ∧ sockets unsub.1 = {[ 1 := [] ]}.
Proof.
  intros sub unsub.
  assert (DefaultSubscriptionRegistry Sample.tables EVENT = Some Sample.empty) as Hnew
    by reflexivity.
  split; [exact Hnew|].
  pose proof (subscribe_unsubscribe_roundtrip Sample.quiet Sample.tables EVENT Sample.empty
                "x" (Sample.request 3 "x") (Sample.request 4 "x") 1 false false Hnew)
    as (H1 & _ & _ & H4 & _).
  split; [exact H1 | exact H4].
Defined.

(** C3, counterexample: after the round trip [this.sockets] is not what it
    was in the empty registry: it has an entry for the connection. *)
Lemma roundtrip_keeps_sockets_entry :
  let sub := subscribe Sample.quiet "x" (Sample.request 3 "x") 1 false Sample.empty in
  let unsub := unsubscribe Sample.quiet "x" (Sample.request 4 "x") 1 false sub.1 in
  sockets Sample.empty !! 1 = None
  ∧ sockets unsub.1 !! 1 = Some []
  ∧ sockets unsub.1 ≠ sockets Sample.empty.
Proof.
  cbn zeta. split; [reflexivity|]. split; [reflexivity|].
  intros Heq.
  assert (sockets (unsubscribe Sample.quiet "x" (Sample.request 4 "x") 1 false
            (subscribe Sample.quiet "x" (Sample.request 3 "x") 1 false Sample.empty).1).1
          !! 1 = Some []) as Hl by reflexivity.
  rewrite Heq in Hl. discriminate.
Qed.

(** ** The close hook *)

Lemma filter_not_elem_of_self (l : list nat) : filter (λ r, r ∉ l) l = [].
Proof.
  destruct (filter (λ r, r ∉ l) l) as [|x rest] eqn:E; [done|].
  assert (x ∈ filter (λ r, r ∉ l) l) as Hin by (rewrite E; apply list_elem_of_here).
  by apply list_elem_of_filter in Hin as [? ?].
Qed.

Lemma omap_pointwise {A B} (f g : A → option B) (l : list A) :
  (∀ x, f x = g x) → omap f l = omap g l.
Proof. intros Hfg. induction l as [|x l IH]; cbn; [done|]. by rewrite Hfg, IH. Qed.

Lemma NoDup_omap {A B} (f : A → option B) (l : list A) :
  NoDup l →
  (∀ x y b, x ∈ l → y ∈ l → f x = Some b → f y = Some b → x = y) →
  NoDup (omap f l).
Proof.
  induction 1 as [|x l Hx Hl IH]; intros Hinj; cbn; [constructor|].
  assert (NoDup (omap f l)) as IH'.
  { apply IH. intros y z b Hy Hz. apply Hinj; by right. }
  destruct (f x) as [b|] eqn:Hfx; [|done].
  constructor; [|done].
  intros (y & Hy & Hfy)%list_elem_of_omap.
  assert (x = y) as -> by (eapply Hinj; [by left | by right | done..]).
  done.
Qed.

(** A subscription keeps its name when a connection leaves one. *)
Lemma name_of_dropped st r c sub r' :
  heap st !! r = Some sub →
  name_of (dropped st r c sub) r' = name_of st r'.
Proof.
  intros Hr. unfold name_of, dropped. cbn.
  destruct (decide (r' = r)) as [->|Hd].
  - rewrite list_lookup_insert_eq by by eapply lookup_lt_Some. by rewrite Hr.
  - by rewrite list_lookup_insert_ne.
Qed.

Lemma drop_trace_callbacks st c sub :
  subscriptionListener st = true →
  List.filter is_removed_callback (drop_trace st c sub)
  = [ListenerOnSubscriptionRemoved (Subscription.name sub) c].
Proof. intros Hl. unfold drop_trace. rewrite Hl. by destruct (bool_decide _). Qed.

Lemma filter_not_elem_of_nil (l : list nat) : filter (λ r, r ∉ []) l = l.
Proof.
  induction l as [|x l IH]; [done|].
  rewrite filter_cons_True by apply not_elem_of_nil. by rewrite IH.
Qed.

(** The loop of the close hook: every pending subscription is still held
    when its turn comes, so each is left in turn. *)
Lemma forOfLive_close c pending : ∀ st held,
  Inv st → subscriptionListener st = true →
  sockets st !! c = Some held →
  NoDup pending → (∀ r, r ∈ pending → r ∈ held) →
  let out := forOfLive c pending
               (λ r, sockets_delete r c ;; removeSocket r c) st in
  sockets out.1 !! c = Some (filter (λ r, r ∉ pending) held)
  ∧ List.filter is_removed_callback out.2
    = map (λ name, ListenerOnSubscriptionRemoved name c) (omap (name_of st) pending)
  ∧ length (omap (name_of st) pending) = length pending.
Proof.
  induction pending as [|r pending IH]; intros st held HI Hl Hh Hnd Hsub; cbn zeta.
  - cbn. by rewrite Hh, filter_not_elem_of_nil.
  - assert (Hin : r ∈ held) by apply Hsub, list_elem_of_here.
    destruct (close_turn st c held r HI Hh Hin) as (sub & Hr & Hn & Heq).
    apply NoDup_cons in Hnd as [Hnotin Hnd].
    set (st' := dropped st r c sub).
    assert (Hstep :
      (λ st0, if set_has r (default [] (sockets st0 !! c))
              then (sockets_delete r c ;; removeSocket r c) st0 else skip st0) st
      = (st', drop_trace st c sub)).
    { cbn beta. rewrite Hh. cbn [default from_option]. unfold set_has.
      by rewrite bool_decide_eq_true_2. }
    cbn [forOfLive]. rewrite seq_fst, seq_snd, Hstep. cbn [fst snd].
    destruct (IH st' (set_delete r held)) as (E1 & E2 & E3).
    + by apply Inv_dropped.
    + done.
    + unfold st'. rewrite sockets_dropped, lookup_forget, decide_True by done.
      by rewrite Hh.
    + done.
    + intros r' Hr'. apply elem_of_set_delete. split; [by apply Hsub; right|].
      by intros ->.
    + assert (Hnames : omap (name_of st') pending = omap (name_of st) pending).
      { apply omap_pointwise. intros r'. by apply name_of_dropped. }
      assert (Hname : name_of st r = Some (Subscription.name sub)).
      { unfold name_of. by rewrite Hr. }
      rewrite Hnames in E2, E3. split; [|split].
      * rewrite E1. f_equal. unfold set_delete. rewrite list_filter_filter.
        apply list_filter_iff. intros x. rewrite not_elem_of_cons. tauto.
      * rewrite List.filter_app, drop_trace_callbacks, E2 by done.
        cbn [omap list_omap]. by rewrite Hname.
      * cbn [omap list_omap]. rewrite Hname. cbn. by rewrite E3.
Qed.

Section CloseHook.
Variable shouldLog : LOG_LEVEL → bool.

(** C2, as the code has it: with a subscription listener installed, the
    close hook of a connection holding K subscriptions calls
    [onSubscriptionRemoved] exactly K times, once for each held name, in the
    order of the set; afterwards the connection holds no subscription, but
    its entry in [this.sockets] is still there, with the empty set.  (A
    connection without an entry gets none.) *)
Theorem onSocketClose_cascade st c :
  reachable shouldLog st →
  subscriptionListener st = true →
  let held := default [] (sockets st !! c) in
  let out := onSocketClose c st in
  List.filter is_removed_callback out.2
  = map (λ name, ListenerOnSubscriptionRemoved name c) (held_names st c)
  ∧ length (List.filter is_removed_callback out.2) = length held
  ∧ NoDup (held_names st c)
  ∧ sockets out.1 !! c = ((λ _, []) <$> sockets st !! c).
Proof.
  intros HI%reachable_Inv Hl held out.
  assert (Hnd : NoDup (held_names st c)).
  { unfold held_names. destruct (sockets st !! c) as [hs|] eqn:Hh; [|constructor].
    cbn [default from_option]. apply NoDup_omap; [by eapply inv_nodup|].
    intros r1 r2 name Hr1 Hr2 Hn1 Hn2. unfold name_of in Hn1, Hn2.
    destruct (inv_held _ HI _ _ _ Hh Hr1) as (sub1 & Hs1 & Hm1 & _).
    destruct (inv_held _ HI _ _ _ Hh Hr2) as (sub2 & Hs2 & Hm2 & _).
    rewrite Hs1 in Hn1. rewrite Hs2 in Hn2. cbn in Hn1, Hn2. congruence. }
  unfold out, held, held_names, onSocketClose.
  destruct (sockets st !! c) as [hs|] eqn:Hh.
  - cbn [default from_option fmap option_fmap option_map].
    destruct (forOfLive_close c hs st hs HI Hl Hh) as (E1 & E2 & E3);
      [by eapply inv_nodup | done |].
    rewrite E2, length_map, E3, E1, filter_not_elem_of_self.
    split; [done|]. split; [done|]. split; [|done].
    unfold held_names in Hnd. by rewrite Hh in Hnd.
  - cbn. rewrite Hh. split; [done|]. split; [done|]. split; [|done].
    unfold held_names in Hnd. by rewrite Hh in Hnd.
Qed.
End CloseHook.

Lemma onSocketClose_cascade_witness :
  let st := (run_all Sample.quiet
               [ SetSubscriptionListener;
                 Subscribe "a" (Sample.request 3 "a") 1 false;
                 Subscribe "b" (Sample.request 3 "b") 1 false;
                 Subscribe "c" (Sample.request 3 "c") 1 false ] Sample.empty).1 in
  reachable Sample.quiet st
  ∧ subscriptionListener st = true
  ∧ List.filter is_removed_callback (onSocketClose 1 st).2
    = map (λ name, ListenerOnSubscriptionRemoved name 1) (held_names st 1)
  ∧ length (List.filter is_removed_callback (onSocketClose 1 st).2) = 3.
Proof.
  intros st.
  assert (reachable Sample.quiet st) as Hst
    by apply reachable_run_all, reachable_sample.
  assert (subscriptionListener st = true) as Hl by reflexivity.
  split; [exact Hst|]. split; [exact Hl|].
  pose proof (onSocketClose_cascade Sample.quiet st 1 Hst Hl) as (H1 & H2 & _).
  split; [exact H1 | exact H2].
Defined.

(** C2, counterexample: a connection subscribed to [a], [b] and [c] closes;
    [this.sockets] still has an entry for it afterwards. *)
Lemma onSocketClose_keeps_sockets_entry :
  let st := (run_all Sample.quiet
               [ SetSubscriptionListener;
                 Subscribe "a" (Sample.request 3 "a") 1 false;
                 Subscribe "b" (Sample.request 3 "b") 1 false;
                 Subscribe "c" (Sample.request 3 "c") 1 false ] Sample.empty).1 in
  reachable Sample.quiet st
  ∧ held_names st 1 = ["a"; "b"; "c"]
  ∧ sockets (onSocketClose 1 st).1 !! 1 = Some []
  ∧ sockets (onSocketClose 1 st).1 !! 1 ≠ None.
Proof.
  cbn zeta. split; [apply reachable_run_all, reachable_sample|].
  split; [reflexivity|].
  assert (sockets (onSocketClose 1 (run_all Sample.quiet
               [ SetSubscriptionListener;
                 Subscribe "a" (Sample.request 3 "a") 1 false;
                 Subscribe "b" (Sample.request 3 "b") 1 false;
                 Subscribe "c" (Sample.request 3 "c") 1 false ] Sample.empty).1).1 !! 1
          = Some []) as -> by reflexivity.
  done.
Qed.

(** ** Registration of the close hook *)

Section Registration.
Variable shouldLog : LOG_LEVEL → bool.

(** [subscribe] calls [onClose] on the connection exactly when the call is
    not a duplicate and the connection holds nothing: at its first
    subscription. *)
Lemma subscribe_close_hook st name message c silent :
  Inv st →
  List.filter (is_close_hook c) (subscribe shouldLog name message c silent st).2
  = if bool_decide ((c ∉ getLocalSubscribers st name)
                    ∧ default [] (sockets st !! c) = [])
    then [SocketOnClose c] else [].
Proof.
  intros HI.
  assert (Hjoin : c ∉ getLocalSubscribers st name →
    List.filter (is_close_hook c) (join_trace shouldLog st name message c silent)
    = if bool_decide ((c ∉ getLocalSubscribers st name)
                      ∧ default [] (sockets st !! c) = [])
      then [SocketOnClose c] else []).
  { intros Hc. unfold join_trace. rewrite List.filter_app.
    assert (List.filter (is_close_hook c)
              (ClusterStateAdd name
               :: (if subscriptionListener st
                   then [ListenerOnSubscriptionMade name c] else [])
               ++ (if silent then []
                   else (if shouldLog DEBUG
                         then [LoggerDebug (constant st "SUBSCRIBE") name c] else [])
                        ++ [SocketSendAckMessage c message])) = []) as ->.
    { by destruct (subscriptionListener st), silent, (shouldLog DEBUG). }
    rewrite app_nil_r. case_bool_decide as Hlen.
    - rewrite bool_decide_eq_true_2 by by rewrite <- length_zero_nil.
      cbn. by rewrite bool_decide_eq_true_2.
    - rewrite bool_decide_eq_false_2; [done|]. rewrite <- length_zero_nil. tauto. }
  destruct (subscriptions st !! name) as [r|] eqn:Hn.
  - destruct (inv_installed _ HI _ _ Hn) as (sub & Hr & Hnm & Hne).
    assert (Hloc : getLocalSubscribers st name = Subscription.sockets sub).
    { unfold getLocalSubscribers. by rewrite Hn, Hr. }
    destruct (decide (c ∈ Subscription.sockets sub)) as [Hc|Hc].
    + erewrite subscribe_duplicate by done. cbn [snd].
      rewrite bool_decide_eq_false_2 by (rewrite Hloc; tauto).
      unfold duplicate_trace. by destruct (shouldLog WARN).
    + erewrite subscribe_present by done. cbn [snd]. apply Hjoin. by rewrite Hloc.
  - rewrite subscribe_absent by done. cbn [snd]. apply Hjoin.
    unfold getLocalSubscribers. rewrite Hn. apply not_elem_of_nil.
Qed.

(** [unsubscribe] calls [removeOnClose] on the connection exactly when the
    connection was the only subscriber of the name, whatever else the
    connection holds. *)
Lemma unsubscribe_close_hook st name message c silent :
  Inv st →
  List.filter (is_close_hook c) (unsubscribe shouldLog name message c silent st).2
  = if bool_decide (c ∈ getLocalSubscribers st name
                    ∧ set_delete c (getLocalSubscribers st name) = [])
    then [SocketRemoveOnClose c] else [].
Proof.
  intros HI.
  assert (Hstranger :
    List.filter (is_close_hook c) (stranger_trace shouldLog st name message c silent) = []).
  { unfold stranger_trace. by destruct silent, (shouldLog WARN). }
  destruct (subscriptions st !! name) as [r|] eqn:Hn.
  - destruct (inv_installed _ HI _ _ Hn) as (sub & Hr & Hnm & Hne).
    assert (Hloc : getLocalSubscribers st name = Subscription.sockets sub).
    { unfold getLocalSubscribers. by rewrite Hn, Hr. }
    rewrite Hloc. destruct (decide (c ∈ Subscription.sockets sub)) as [Hc|Hc].
    + erewrite unsubscribe_member by done. cbn [snd].
      unfold leave_trace, drop_trace. rewrite !List.filter_app.
      assert (List.filter (is_close_hook c)
                (if silent then []
                 else (if shouldLog DEBUG
                       then [LoggerDebug (constant st "UNSUBSCRIBE") name c] else [])
                      ++ [SocketSendAckMessage c message]) = []) as ->
        by by destruct silent, (shouldLog DEBUG).
      assert (List.filter (is_close_hook c)
                (if subscriptionListener st
                 then [ListenerOnSubscriptionRemoved (Subscription.name sub) c]
                 else []) = []) as ->
        by by destruct (subscriptionListener st).
      cbn [List.filter is_close_hook app]. rewrite !app_nil_r.
      case_bool_decide as Hlen.
      * rewrite bool_decide_eq_true_2 by by rewrite <- length_zero_nil.
        cbn. by rewrite bool_decide_eq_true_2.
      * rewrite bool_decide_eq_false_2; [done|]. rewrite <- length_zero_nil. tauto.
    + erewrite unsubscribe_stranger by done. cbn [snd].
      rewrite bool_decide_eq_false_2 by tauto. done.
  - rewrite unsubscribe_absent by done. cbn [snd].
    rewrite bool_decide_eq_false_2; [done|].
    unfold getLocalSubscribers. rewrite Hn. by intros [?%elem_of_nil _].
Qed.
End Registration.

(** C1, at the input where the code departs from it: a connection
    subscribes to [a] and to [b] -- [onClose] is called once, at the first of
    the two -- and then unsubscribes from [a].  [removeSocket] finds the
    socket set of [a] empty and calls [removeOnClose] on the connection,
    which still holds [b]. *)
Theorem removeOnClose_while_subscribed :
  let first := subscribe Sample.quiet "a" (Sample.request 3 "a") 1 false Sample.empty in
  let second := subscribe Sample.quiet "b" (Sample.request 3 "b") 1 false first.1 in
  let out := unsubscribe Sample.quiet "a" (Sample.request 4 "a") 1 false second.1 in
  List.filter (is_close_hook 1) first.2 = [SocketOnClose 1]
  ∧ List.filter (is_close_hook 1) second.2 = []
  ∧ List.filter (is_close_hook 1) out.2 = [SocketRemoveOnClose 1]
  ∧ held_names out.1 1 = ["b"]
  ∧ getLocalSubscribers out.1 "b" = [1].
Proof. cbn zeta. repeat split; reflexivity. Qed.

(** ** More on sets *)

Lemma set_add_elem {A} `{EqDecision A} (x : A) (s : list A) : x ∈ s → set_add x s = s.
Proof. intros Hx. unfold set_add, set_has. by rewrite bool_decide_eq_true_2. Qed.

Lemma set_add_fresh {A} `{EqDecision A} (x : A) (s : list A) :
  x ∉ s → set_add x s = s ++ [x].
Proof. intros Hx. unfold set_add, set_has. by rewrite bool_decide_eq_false_2. Qed.

Lemma set_delete_fresh {A} `{EqDecision A} (x : A) (s : list A) :
  x ∉ s → set_delete x s = s.
Proof.
  unfold set_delete. induction s as [|y s IH]; intros Hx; [done|].
  apply not_elem_of_cons in Hx as [Hne Hx].
  rewrite filter_cons_True by done. by rewrite IH.
Qed.

Lemma set_delete_add {A} `{EqDecision A} (x : A) (s : list A) :
  x ∉ s → set_delete x (set_add x s) = s.
Proof.
  intros Hx. rewrite set_add_fresh by done. unfold set_delete.
  rewrite filter_app, filter_cons_False, filter_nil, app_nil_r by (intros Hn; by apply Hn).
  by apply set_delete_fresh.
Qed.

Lemma set_delete_idemp {A} `{EqDecision A} (x : A) (s : list A) :
  set_delete x (set_delete x s) = set_delete x s.
Proof. apply set_delete_fresh. rewrite elem_of_set_delete. by intros [_ ?]. Qed.

Lemma NoDup_set_delete {A} `{EqDecision A} (x : A) (s : list A) :
  NoDup s → NoDup (set_delete x s).
Proof. apply NoDup_filter. Qed.

Lemma length_set_delete {A} `{EqDecision A} (x : A) (s : list A) :
  NoDup s → x ∈ s → S (length (set_delete x s)) = length s.
Proof.
  induction 1 as [|y s Hy Hs IH]; intros Hx; [by apply elem_of_nil in Hx|].
  unfold set_delete. destruct (decide (y = x)) as [->|Hne].
  - rewrite filter_cons_False by (intros Hn; by apply Hn).
    fold (set_delete x s). by rewrite set_delete_fresh.
  - rewrite filter_cons_True by done. cbn. f_equal. apply IH.
    apply elem_of_cons in Hx as [->|Hx]; done.
Qed.

Lemma length_set_add {A} `{EqDecision A} (x : A) (s : list A) :
  x ∉ s → length (set_add x s) = S (length s).
Proof. intros Hx. rewrite set_add_fresh, length_app by done. cbn. lia. Qed.

(** ** Both indexes agree, in every state a registry can be in *)

Lemma heap_installed_old st name r sub :
  heap st !! r = Some sub → heap (installed st name) !! r = Some sub.
Proof. intros Hr. cbn. rewrite lookup_app_l; [done|]. by eapply lookup_lt_Some. Qed.

Lemma heap_installed_new st name :
  heap (installed st name) !! length (heap st) = Some (Subscription.mk name []).
Proof. cbn. rewrite lookup_app_r by done. by rewrite Nat.sub_diag. Qed.

Lemma heap_installed st name r sub :
  heap (installed st name) !! r = Some sub →
  heap st !! r = Some sub ∨ (r = length (heap st) ∧ sub = Subscription.mk name []).
Proof.
  cbn. intros Hr. apply lookup_app_Some in Hr as [Hr|[Hlen Hr]]; [by left|right].
  apply list_lookup_singleton_Some in Hr as [Hz <-]. split; [lia|done].
Qed.

Lemma heap_joined st r c sub r' :
  heap st !! r = Some sub →
  heap (joined st r c sub) !! r' =
    if decide (r' = r)
    then Some (Subscription.mk (Subscription.name sub) (set_add c (Subscription.sockets sub)))
    else heap st !! r'.
Proof.
  intros Hr. cbn. case_decide as Hd.
  - subst. apply list_lookup_insert_eq. by eapply lookup_lt_Some.
  - by apply list_lookup_insert_ne.
Qed.

Lemma heap_dropped st r c sub r' :
  heap st !! r = Some sub →
  heap (dropped st r c sub) !! r' =
    if decide (r' = r)
    then Some (Subscription.mk (Subscription.name sub)
                 (set_delete c (Subscription.sockets sub)))
    else heap st !! r'.
Proof.
  intros Hr. cbn. case_decide as Hd.
  - subst. apply list_lookup_insert_eq. by eapply lookup_lt_Some.
  - by apply list_lookup_insert_ne.
Qed.

Lemma lookup_sockets_joined st r c sub c' :
  sockets (joined st r c sub) !! c' =
    if decide (c' = c) then Some (set_add r (default [] (sockets st !! c)))
    else sockets st !! c'.
Proof.
  rewrite sockets_joined. case_decide as Hd.
  - subst. apply lookup_insert_eq.
  - by apply lookup_insert_ne.
Qed.

Lemma NoDupSockets_installed st name : NoDupSockets st → NoDupSockets (installed st name).
Proof.
  intros HN r sub [Hr|[_ ->]]%heap_installed; [by eapply HN | constructor].
Qed.

Lemma NoDupSockets_joined st r c sub :
  NoDupSockets st → heap st !! r = Some sub → NoDupSockets (joined st r c sub).
Proof.
  intros HN Hr r' sub'. rewrite heap_joined by done. case_decide.
  - intros [= <-]. cbn. apply NoDup_set_add. by eapply HN.
  - apply HN.
Qed.

Lemma NoDupSockets_dropped st r c sub :
  NoDupSockets st → heap st !! r = Some sub → NoDupSockets (dropped st r c sub).
Proof.
  intros HN Hr r' sub'. rewrite heap_dropped by done. case_decide.
  - intros [= <-]. cbn. apply NoDup_set_delete. by eapply HN.
  - apply HN.
Qed.

Lemma Indexed_installed st name :
  Inv st → Indexed st → subscriptions st !! name = None → Indexed (installed st name).
Proof.
  intros HI HX Hn name' r sub c. rewrite subscriptions_installed, sockets_installed.
  rewrite lookup_insert. case_decide as Hd.
  - intros [= <-]. rewrite heap_installed_new. intros [= <-]. cbn.
    by intros ?%elem_of_nil.
  - intros Hl Hr Hc. destruct (inv_installed _ HI _ _ Hl) as (sub0 & Hr0 & _).
    rewrite (heap_installed_old _ _ _ _ Hr0) in Hr. injection Hr as <-. by eapply HX.
Qed.

Lemma Indexed_joined st r c sub :
  Indexed st → heap st !! r = Some sub → Indexed (joined st r c sub).
Proof.
  intros HX Hr name' r' sub' c'. rewrite subscriptions_joined, heap_joined by done.
  intros Hl Hs Hc. rewrite lookup_sockets_joined.
  assert (Hold : ∀ held, sockets st !! c' = Some held → r' ∈ held →
    ∃ held', (if decide (c' = c) then Some (set_add r (default [] (sockets st !! c)))
              else sockets st !! c') = Some held' ∧ r' ∈ held').
  { intros held Hh Hin. destruct (decide (c' = c)) as [Hd|Hd].
    - rewrite <- Hd, Hh. cbn. eexists. split; [done|]. apply elem_of_set_add. by right.
    - eauto. }
  destruct (decide (r' = r)) as [->|Hd].
  - injection Hs as <-. cbn in Hc. apply elem_of_set_add in Hc as [->|Hc].
    + rewrite decide_True by done. eexists. split; [done|]. apply elem_of_set_add. by left.
    + destruct (HX _ _ _ _ Hl Hr Hc) as (held & Hh & Hin). by eapply Hold.
  - destruct (HX _ _ _ _ Hl Hs Hc) as (held & Hh & Hin). by eapply Hold.
Qed.

Lemma subscriptions_dropped_Some st r c sub name r' :
  subscriptions (dropped st r c sub) !! name = Some r' → subscriptions st !! name = Some r'.
Proof.
  rewrite subscriptions_dropped. case_bool_decide; cbn; [|done].
  by intros [_ ?]%lookup_delete_Some.
Qed.

Lemma Indexed_dropped st r c sub :
  Indexed st → heap st !! r = Some sub → Indexed (dropped st r c sub).
Proof.
  intros HX Hr name' r' sub' c' Hl%subscriptions_dropped_Some.
  rewrite heap_dropped by done. intros Hs Hc.
  rewrite sockets_dropped, lookup_forget.
  destruct (decide (r' = r)) as [->|Hd].
  - injection Hs as <-. cbn in Hc. apply elem_of_set_delete in Hc as [Hc Hne].
    destruct (HX _ _ _ _ Hl Hr Hc) as (held & Hh & Hin).
    rewrite decide_False by done. eauto.
  - destruct (HX _ _ _ _ Hl Hs Hc) as (held & Hh & Hin). case_decide.
    + rewrite Hh. cbn. eexists. split; [done|]. by apply elem_of_set_delete.
    + eauto.
Qed.

Section Coherence.
Variable shouldLog : LOG_LEVEL → bool.

Lemma Coherent_new T t st : DefaultSubscriptionRegistry T t = Some st → Coherent st.
Proof.
  intros Hnew. split; [by eapply Inv_new|..];
    revert Hnew; unfold DefaultSubscriptionRegistry;
    destruct (select_actions T t); try done; intros [= <-].
  - intros r sub. cbn. by rewrite lookup_nil.
  - intros name r sub c. cbn. by rewrite lookup_empty.
Qed.

Lemma Coherent_dropped st r c sub :
  Coherent st → heap st !! r = Some sub →
  subscriptions st !! Subscription.name sub = Some r →
  Coherent (dropped st r c sub).
Proof.
  intros [HI HN HX] Hr Hn. split.
  - by apply Inv_dropped.
  - by apply NoDupSockets_dropped.
  - by apply Indexed_dropped.
Qed.

Lemma Coherent_subscribe st name message c silent :
  Coherent st → Coherent (subscribe shouldLog name message c silent st).1.
Proof.
  intros [HI HN HX]. split; [by apply Inv_subscribe|..];
    destruct (subscriptions st !! name) as [r|] eqn:Hn.
  - destruct (inv_installed _ HI _ _ Hn) as (sub & Hr & Hnm & Hne).
    destruct (decide (c ∈ Subscription.sockets sub)) as [Hc|Hc].
    + by erewrite subscribe_duplicate.
    + erewrite subscribe_present by done. by apply NoDupSockets_joined.
  - rewrite subscribe_absent by done.
    apply NoDupSockets_joined; [by apply NoDupSockets_installed|].
    apply heap_installed_new.
  - destruct (inv_installed _ HI _ _ Hn) as (sub & Hr & Hnm & Hne).
    destruct (decide (c ∈ Subscription.sockets sub)) as [Hc|Hc].
    + by erewrite subscribe_duplicate.
    + erewrite subscribe_present by done. by apply Indexed_joined.
  - rewrite subscribe_absent by done.
    apply Indexed_joined; [by apply Indexed_installed|].
    apply heap_installed_new.
Qed.

Lemma Coherent_unsubscribe st name message c silent :
  Coherent st → Coherent (unsubscribe shouldLog name message c silent st).1.
Proof.
  intros HC. pose proof (coherent_inv _ HC) as HI.
  destruct (subscriptions st !! name) as [r|] eqn:Hn.
  - destruct (inv_installed _ HI _ _ Hn) as (sub & Hr & Hnm & Hne).
    destruct (decide (c ∈ Subscription.sockets sub)) as [Hc|Hc].
    + erewrite unsubscribe_member by done. apply Coherent_dropped; [done..|].
      by rewrite Hnm.
    + by erewrite unsubscribe_stranger.
  - by rewrite unsubscribe_absent.
Qed.

Lemma Coherent_forOfLive c pending st :
  Coherent st →
  Coherent (forOfLive c pending (λ r, sockets_delete r c ;; removeSocket r c) st).1.
Proof.
  revert st. induction pending as [|r pending IH]; intros st HC; cbn [forOfLive]; [done|].
  rewrite seq_fst. apply IH. unfold set_has. case_bool_decide as Hin; [|done].
  destruct (sockets st !! c) as [held|] eqn:Hh; cbn in Hin.
  - destruct (close_turn st c held r (coherent_inv _ HC) Hh Hin) as (sub & Hr & Hn & ->).
    by apply Coherent_dropped.
  - by apply not_elem_of_nil in Hin.
Qed.

Lemma Coherent_run st call : Coherent st → Coherent (run shouldLog call st).1.
Proof.
  intros HC. destruct call; cbn [run].
  - by apply Coherent_subscribe.
  - by apply Coherent_unsubscribe.
  - unfold subscribeBulk. rewrite seq_fst.
    assert (Coherent (forEach (msg_names message)
                        (λ name, subscribe shouldLog name message socket true) st).1) as HC'.
    { apply (forEach_preserves Coherent); [|done]. intros. by apply Coherent_subscribe. }
    by destruct silent.
  - unfold unsubscribeBulk. rewrite seq_fst.
    assert (Coherent (forEach (msg_names message)
                        (λ name, unsubscribe shouldLog name message socket true) st).1) as HC'.
    { apply (forEach_preserves Coherent); [|done]. intros. by apply Coherent_unsubscribe. }
    by destruct silent.
  - unfold onSocketClose. destruct (sockets st !! socket); [|done].
    by apply Coherent_forOfLive.
  - destruct HC as [[] ? ?]. by repeat split.
  - destruct HC as [[] ? ?]. by repeat split.
Qed.

Lemma reachable_Coherent st : reachable shouldLog st → Coherent st.
Proof.
  induction 1 as [T t st Hnew|st call _ IH].
  - by eapply Coherent_new.
  - by apply Coherent_run.
Qed.
End Coherence.

(** ** What the operations do to the subscribers of each name *)

Lemma getLocalSubscribers_entry st name r sub :
  subscriptions st !! name = Some r → heap st !! r = Some sub →
  getLocalSubscribers st name = Subscription.sockets sub.
Proof. intros Hn Hr. unfold getLocalSubscribers. by rewrite Hn, Hr. Qed.

Lemma getLocalSubscribers_installed st name n :
  Inv st → subscriptions st !! name = None →
  getLocalSubscribers (installed st name) n = getLocalSubscribers st n.
Proof.
  intros HI Hn. unfold getLocalSubscribers. rewrite subscriptions_installed.
  destruct (decide (n = name)) as [->|Hd].
  - by rewrite lookup_insert_eq, heap_installed_new, Hn.
  - rewrite lookup_insert_ne by done.
    destruct (subscriptions st !! n) as [r|] eqn:Hl; [|done].
    destruct (inv_installed _ HI _ _ Hl) as (sub & Hr & _).
    by rewrite (heap_installed_old _ _ _ _ Hr), Hr.
Qed.

Lemma getLocalSubscribers_joined st r c sub n :
  Joining st r sub →
  getLocalSubscribers (joined st r c sub) n =
    if decide (n = Subscription.name sub)
    then set_add c (Subscription.sockets sub)
    else getLocalSubscribers st n.
Proof.
  intros [Hr Hn J1 _ _]. unfold getLocalSubscribers. rewrite subscriptions_joined.
  case_decide as Hd.
  - subst n. rewrite Hn, heap_joined, decide_True by done. done.
  - destruct (subscriptions st !! n) as [r'|] eqn:Hl; [|done].
    destruct (J1 _ _ Hl) as (sub' & Hr' & Hnm & _).
    rewrite heap_joined, decide_False; [done| |done].
    intros ->. congruence.
Qed.

Lemma getLocalSubscribers_dropped st r c sub n :
  Inv st → heap st !! r = Some sub →
  subscriptions st !! Subscription.name sub = Some r →
  getLocalSubscribers (dropped st r c sub) n =
    if decide (n = Subscription.name sub)
    then set_delete c (Subscription.sockets sub)
    else getLocalSubscribers st n.
Proof.
  intros HI Hr Hn. unfold getLocalSubscribers. rewrite subscriptions_dropped.
  case_decide as Hd.
  - subst n. case_bool_decide as He; cbv iota.
    + rewrite lookup_delete_eq. symmetry. by apply length_zero_nil.
    + unfold id. by rewrite Hn, heap_dropped, decide_True.
  - assert ((if bool_decide (length (set_delete c (Subscription.sockets sub)) = 0)
             then delete (Subscription.name sub) else id) (subscriptions st) !! n
            = subscriptions st !! n) as ->.
    { case_bool_decide; cbn; [|done]. by rewrite lookup_delete_ne. }
    destruct (subscriptions st !! n) as [r'|] eqn:Hl; [|done].
    destruct (inv_installed _ HI _ _ Hl) as (sub' & Hr' & Hnm & _).
    rewrite heap_dropped, decide_False; [done| |done].
    intros ->. congruence.
Qed.

Section Subscribers.
Variable shouldLog : LOG_LEVEL → bool.

Lemma getLocalSubscribers_subscribe st name message c silent n :
  Inv st →
  getLocalSubscribers (subscribe shouldLog name message c silent st).1 n =
    if decide (n = name) then set_add c (getLocalSubscribers st name)
    else getLocalSubscribers st n.
Proof.
  intros HI. destruct (subscriptions st !! name) as [r|] eqn:Hn.
  - destruct (inv_installed _ HI _ _ Hn) as (sub & Hr & Hnm & Hne).
    rewrite (getLocalSubscribers_entry st name r sub) by done.
    destruct (decide (c ∈ Subscription.sockets sub)) as [Hc|Hc].
    + erewrite subscribe_duplicate by done. cbn [fst]. case_decide as Hd; [|done].
      subst n. rewrite set_add_elem by done. by eapply getLocalSubscribers_entry.
    + erewrite subscribe_present by done. cbn [fst].
      rewrite getLocalSubscribers_joined by (apply Joining_Inv; [done..|by rewrite Hnm]).
      by rewrite Hnm.
  - rewrite subscribe_absent by done. cbn [fst].
    rewrite getLocalSubscribers_joined by by apply Joining_installed.
    cbn [Subscription.name Subscription.sockets]. case_decide.
    + unfold getLocalSubscribers at 1. by rewrite Hn.
    + by apply getLocalSubscribers_installed.
Qed.

Lemma getLocalSubscribers_unsubscribe st name message c silent n :
  Inv st →
  getLocalSubscribers (unsubscribe shouldLog name message c silent st).1 n =
    if decide (n = name) then set_delete c (getLocalSubscribers st name)
    else getLocalSubscribers st n.
Proof.
  intros HI. destruct (subscriptions st !! name) as [r|] eqn:Hn.
  - destruct (inv_installed _ HI _ _ Hn) as (sub & Hr & Hnm & Hne).
    rewrite (getLocalSubscribers_entry st name r sub) by done.
    destruct (decide (c ∈ Subscription.sockets sub)) as [Hc|Hc].
    + erewrite unsubscribe_member by done. cbn [fst].
      rewrite getLocalSubscribers_dropped by (try done; by rewrite Hnm).
      by rewrite Hnm.
    + erewrite unsubscribe_stranger by done. cbn [fst]. case_decide as Hd; [|done].
      subst n. rewrite set_delete_fresh by done. by eapply getLocalSubscribers_entry.
  - rewrite unsubscribe_absent by done. cbn [fst]. case_decide as Hd; [|done].
    subst n. unfold getLocalSubscribers. by rewrite Hn.
Qed.
End Subscribers.

(** ** Relating the state before and after a call *)

(** A relation between a state, the events of a computation and the state
    it ends in, closed under doing nothing and under sequencing, holds for
    a loop as soon as it holds for each turn. *)
Section Relations.
Variable shouldLog : LOG_LEVEL → bool.
Variable R : Registry → list Event → Registry → Prop.
Hypothesis R_refl : ∀ st, R st [] st.
Hypothesis R_trans : ∀ st1 t1 st2 t2 st3,
  R st1 t1 st2 → R st2 t2 st3 → R st1 (t1 ++ t2) st3.

Lemma forEach_rel names body :
  (∀ n st, Coherent st → Coherent (body n st).1 ∧ R st (body n st).2 (body n st).1) →
  ∀ st, Coherent st →
    Coherent (forEach names body st).1
    ∧ R st (forEach names body st).2 (forEach names body st).1.
Proof.
  intros Hbody. induction names as [|n names IH]; intros st HC; cbn [forEach].
  - split; [done | apply R_refl].
  - rewrite seq_fst, seq_snd. destruct (Hbody n st HC) as [HC1 HR1].
    destruct (IH _ HC1) as [HC2 HR2]. split; [done|]. by eapply R_trans.
Qed.

Lemma forOfLive_rel c pending :
  (∀ st r sub held,
     Coherent st → sockets st !! c = Some held → r ∈ held →
     heap st !! r = Some sub → subscriptions st !! Subscription.name sub = Some r →
     R st (drop_trace st c sub) (dropped st r c sub)) →
  ∀ st, Coherent st →
    let out := forOfLive c pending (λ r, sockets_delete r c ;; removeSocket r c) st in
    R st out.2 out.1.
Proof.
  intros Hturn. induction pending as [|r pending IH]; intros st HC; cbn zeta;
    cbn [forOfLive]; [apply R_refl|].
  rewrite seq_fst, seq_snd. unfold set_has. case_bool_decide as Hin.
  - destruct (sockets st !! c) as [held|] eqn:Hh; cbn in Hin;
      [|by apply not_elem_of_nil in Hin].
    destruct (close_turn st c held r (coherent_inv _ HC) Hh Hin) as (sub & Hr & Hn & ->).
    cbn [fst snd]. eapply R_trans; [by eapply Hturn|].
    apply IH. by apply Coherent_dropped.
  - cbn [skip fst snd]. rewrite app_nil_l. by apply IH.
Qed.

Lemma run_all_rel calls :
  (∀ call st, Coherent st → R st (run shouldLog call st).2 (run shouldLog call st).1) →
  ∀ st, Coherent st →
    R st (run_all shouldLog calls st).2 (run_all shouldLog calls st).1.
Proof.
  intros Hcall. induction calls as [|call calls IH]; intros st HC; cbn [run_all];
    [apply R_refl|].
  rewrite seq_fst, seq_snd. eapply R_trans; [by apply Hcall|].
  apply IH. by apply Coherent_run.
Qed.
End Relations.

(** The set the close hook works on, as the loop shrinks it. *)
Lemma forOfLive_held c pending : ∀ st held,
  Inv st → sockets st !! c = Some held →
  NoDup pending → (∀ r, r ∈ pending → r ∈ held) →
  sockets (forOfLive c pending (λ r, sockets_delete r c ;; removeSocket r c) st).1 !! c
  = Some (filter (λ r, r ∉ pending) held).
Proof.
  induction pending as [|r pending IH]; intros st held HI Hh Hnd Hsub.
  - cbn. by rewrite Hh, filter_not_elem_of_nil.
  - assert (Hin : r ∈ held) by apply Hsub, list_elem_of_here.
    destruct (close_turn st c held r HI Hh Hin) as (sub & Hr & Hn & Heq).
    apply NoDup_cons in Hnd as [Hnotin Hnd].
    cbn [forOfLive]. rewrite seq_fst. rewrite Hh. cbn [default from_option].
    unfold set_has. rewrite bool_decide_eq_true_2, Heq by done. cbn [fst].
    rewrite (IH _ (set_delete r held)).
    + f_equal. unfold set_delete. rewrite list_filter_filter.
      apply list_filter_iff. intros x. rewrite not_elem_of_cons. tauto.
    + by apply Inv_dropped.
    + rewrite sockets_dropped, lookup_forget, decide_True by done. by rewrite Hh.
    + done.
    + intros r' Hr'. apply elem_of_set_delete. split; [by apply Hsub; right|].
      by intros ->.
Qed.

Lemma onSocketClose_held st c held :
  Inv st → sockets st !! c = Some held →
  sockets (onSocketClose c st).1 !! c = Some [].
Proof.
  intros HI Hh. unfold onSocketClose. rewrite Hh.
  rewrite (forOfLive_held c held st held); [|done..|by eapply inv_nodup|done].
  by rewrite filter_not_elem_of_self.
Qed.

Lemma hasLocalSubscribers_Inv st name :
  Inv st → (hasLocalSubscribers st name = true ↔ getLocalSubscribers st name ≠ []).
Proof.
  intros HI. unfold hasLocalSubscribers, getLocalSubscribers.
  rewrite bool_decide_eq_true. destruct (subscriptions st !! name) as [r|] eqn:Hn.
  - destruct (inv_installed _ HI _ _ Hn) as (sub & -> & _ & ?). split; [done|eauto].
  - split; [by intros [? ?] | done].
Qed.

Lemma not_member_Indexed st c name :
  Coherent st → default [] (sockets st !! c) = [] → c ∉ getLocalSubscribers st name.
Proof.
  intros [_ _ HX] Hheld (r & sub & Hn & Hr & Hc)%elem_of_getLocalSubscribers.
  destruct (HX _ _ _ _ Hn Hr Hc) as (held & Hh & Hin).
  rewrite Hh in Hheld. cbn in Hheld. subst held. by apply elem_of_nil in Hin.
Qed.

Section NameIndex.
Variable shouldLog : LOG_LEVEL → bool.

(** X1: [subscribe name _ c _] puts [c] at the end of the subscriber set of
    [name] unless it is a member already, and leaves the subscriber set of
    every other name as it was; afterwards [name] has local subscribers. *)
Theorem subscribe_subscribers st name message c silent :
  reachable shouldLog st →
  let st' := (subscribe shouldLog name message c silent st).1 in
  (∀ n, getLocalSubscribers st' n =
          if decide (n = name) then set_add c (getLocalSubscribers st name)
          else getLocalSubscribers st n)
  ∧ (c ∉ getLocalSubscribers st name →
     getLocalSubscribers st' name = getLocalSubscribers st name ++ [c])
  ∧ (c ∈ getLocalSubscribers st name →
     getLocalSubscribers st' name = getLocalSubscribers st name)
  ∧ hasLocalSubscribers st' name = true.
Proof.
  intros HI%reachable_Inv st'.
  assert (Hall : ∀ n, getLocalSubscribers st' n =
          if decide (n = name) then set_add c (getLocalSubscribers st name)
          else getLocalSubscribers st n)
    by (intros n; by apply getLocalSubscribers_subscribe).
  split; [done|].
  pose proof (Hall name) as Hname. rewrite decide_True in Hname by done.
  split; [|split].
  - intros Hc. by rewrite Hname, set_add_fresh.
  - intros Hc. by rewrite Hname, set_add_elem.
  - apply hasLocalSubscribers_Inv; [by apply Inv_subscribe|].
    fold st'. rewrite Hname. apply set_add_not_nil.
Qed.

(** X2: [unsubscribe name _ c _] takes [c] out of the subscriber set of
    [name] and leaves the subscriber set of every other name as it was;
    [name] keeps local subscribers exactly when another connection is
    subscribed to it. *)
Theorem unsubscribe_subscribers st name message c silent :
  reachable shouldLog st →
  let st' := (unsubscribe shouldLog name message c silent st).1 in
  (∀ n, getLocalSubscribers st' n =
          if decide (n = name) then set_delete c (getLocalSubscribers st name)
          else getLocalSubscribers st n)
  ∧ (c ∉ getLocalSubscribers st' name)
  ∧ (hasLocalSubscribers st' name = true ↔
     ∃ c', c' ≠ c ∧ c' ∈ getLocalSubscribers st name).
Proof.
  intros HI%reachable_Inv st'.
  assert (Hall : ∀ n, getLocalSubscribers st' n =
          if decide (n = name) then set_delete c (getLocalSubscribers st name)
          else getLocalSubscribers st n)
    by (intros n; by apply getLocalSubscribers_unsubscribe).
  split; [done|].
  pose proof (Hall name) as Hname. rewrite decide_True in Hname by done.
  split.
  - rewrite Hname, elem_of_set_delete. by intros [_ ?].
  - rewrite hasLocalSubscribers_Inv by by apply Inv_unsubscribe.
    fold st'. rewrite Hname. split.
    + intros Hne. destruct (set_delete c (getLocalSubscribers st name)) as [|c' rest] eqn:E;
        [done|].
      exists c'. apply and_comm, (elem_of_set_delete c c'). rewrite E. apply list_elem_of_here.
    + intros (c' & Hne & Hin) E.
      assert (c' ∈ set_delete c (getLocalSubscribers st name)) as Hin'
        by by apply elem_of_set_delete.
      rewrite E in Hin'. by apply elem_of_nil in Hin'.
Qed.

(** X3: the close hook of [c] takes [c] out of the subscriber set of every
    name and changes no set otherwise; afterwards [c] holds nothing. *)
Theorem onSocketClose_subscribers st c :
  reachable shouldLog st →
  let st' := (onSocketClose c st).1 in
  (∀ n, getLocalSubscribers st' n = set_delete c (getLocalSubscribers st n))
  ∧ (∀ n, c ∉ getLocalSubscribers st' n)
  ∧ held_names st' c = [].
Proof.
  intros HC%reachable_Coherent st'.
  assert (HC' : Coherent st').
  { unfold st', onSocketClose. destruct (sockets st !! c); [|done].
    by apply Coherent_forOfLive. }
  assert (Hheld : default [] (sockets st' !! c) = []).
  { destruct (sockets st !! c) as [held|] eqn:Hh.
    - unfold st'. by erewrite onSocketClose_held by (try done; apply HC).
    - unfold st', onSocketClose. rewrite Hh. cbn. by rewrite Hh. }
  assert (Hnot : ∀ n, c ∉ getLocalSubscribers st' n)
    by (intros n; by apply not_member_Indexed).
  assert (Hmod : ∀ n, set_delete c (getLocalSubscribers st' n)
                      = set_delete c (getLocalSubscribers st n)).
  { unfold st', onSocketClose. destruct (sockets st !! c) as [held|] eqn:Hh; [|done].
    apply (forOfLive_rel
             (λ s _ s', ∀ n, set_delete c (getLocalSubscribers s' n)
                             = set_delete c (getLocalSubscribers s n))); [done| | |done].
    - intros s1 _ s2 _ s3 H12 H23 n. by rewrite H23, H12.
    - intros s r sub held' HCs _ _ Hr Hn n.
      rewrite getLocalSubscribers_dropped by (try done; apply HCs).
      case_decide as Hd; [|done]. subst n.
      rewrite (getLocalSubscribers_entry s _ r sub) by done. apply set_delete_idemp. }
  split; [|split; [done|]].
  - intros n. rewrite <- Hmod. symmetry. by apply set_delete_fresh.
  - unfold held_names. by rewrite Hheld.
Qed.

(** X4: the two indexes agree: a connection is a local subscriber of a name
    exactly when the subscription of that name is in the set held for the
    connection. *)
Theorem indexes_agree st name c :
  reachable shouldLog st →
  c ∈ getLocalSubscribers st name ↔ name ∈ held_names st c.
Proof.
  intros [HI _ HX]%reachable_Coherent. unfold held_names.
  rewrite elem_of_getLocalSubscribers, list_elem_of_omap. split.
  - intros (r & sub & Hn & Hr & Hc).
    destruct (HX _ _ _ _ Hn Hr Hc) as (held & Hh & Hin).
    exists r. rewrite Hh. split; [done|]. unfold name_of. rewrite Hr. cbn.
    destruct (inv_installed _ HI _ _ Hn) as (sub' & Hr' & Hnm & _). congruence.
  - intros (r & Hin & Hname).
    destruct (sockets st !! c) as [held|] eqn:Hh; [|by apply elem_of_nil in Hin].
    destruct (inv_held _ HI _ _ _ Hh Hin) as (sub & Hr & Hn & Hc).
    unfold name_of in Hname. rewrite Hr in Hname. injection Hname as <-.
    by exists r, sub.
Qed.
End NameIndex.

Lemma subscribe_subscribers_witness :
  let st' := (subscribe Sample.quiet "a" (Sample.request 3 "a") 1 false Sample.empty).1 in
  reachable Sample.quiet Sample.empty
  ∧ hasLocalSubscribers st' "a" = true.
Proof.
  intros st'. pose proof (reachable_sample Sample.quiet) as Hst.
  split; [exact Hst|].
  apply (subscribe_subscribers Sample.quiet Sample.empty "a" (Sample.request 3 "a") 1
           false Hst).
Defined.

Lemma unsubscribe_subscribers_witness :
  let st := (run_all Sample.quiet
               [ Subscribe "a" (Sample.request 3 "a") 1 false;
                 Subscribe "a" (Sample.request 3 "a") 2 false ] Sample.empty).1 in
  let st' := (unsubscribe Sample.quiet "a" (Sample.request 4 "a") 1 false st).1 in
  reachable Sample.quiet st
  ∧ (1 ∉ getLocalSubscribers st' "a").
Proof.
  intros st st'.
  assert (reachable Sample.quiet st) as Hst by apply reachable_run_all, reachable_sample.
  split; [exact Hst|].
  apply (unsubscribe_subscribers Sample.quiet st "a" (Sample.request 4 "a") 1 false Hst).
Defined.

Lemma onSocketClose_subscribers_witness :
  let st := (run_all Sample.quiet
               [ Subscribe "a" (Sample.request 3 "a") 1 false;
                 Subscribe "a" (Sample.request 3 "a") 2 false;
                 Subscribe "b" (Sample.request 3 "b") 1 false ] Sample.empty).1 in
  reachable Sample.quiet st
  ∧ held_names (onSocketClose 1 st).1 1 = [].
Proof.
  intros st.
  assert (reachable Sample.quiet st) as Hst by apply reachable_run_all, reachable_sample.
  split; [exact Hst|].
  apply (onSocketClose_subscribers Sample.quiet st 1 Hst).
Defined.

Lemma indexes_agree_witness :
  let st := (run_all Sample.quiet
               [ Subscribe "a" (Sample.request 3 "a") 1 false;
                 Subscribe "b" (Sample.request 3 "b") 1 false ] Sample.empty).1 in
  reachable Sample.quiet st
  ∧ (1 ∈ getLocalSubscribers st "b" ↔ "b" ∈ held_names st 1).
Proof.
  intros st.
  assert (reachable Sample.quiet st) as Hst by apply reachable_run_all, reachable_sample.
  split; [exact Hst|].
  apply (indexes_agree Sample.quiet st "b" 1 Hst).
Defined.

(** A relation that holds for [subscribe], for [unsubscribe], for a turn of
    the close hook and for the bookkeeping around them holds for every
    call. *)
Section Calls.
Variable shouldLog : LOG_LEVEL → bool.
Variable R : Registry → list Event → Registry → Prop.
Hypothesis R_refl : ∀ st, R st [] st.
Hypothesis R_trans : ∀ st1 t1 st2 t2 st3,
  R st1 t1 st2 → R st2 t2 st3 → R st1 (t1 ++ t2) st3.
Hypothesis R_subscribe : ∀ st name message c silent,
  Coherent st →
  R st (subscribe shouldLog name message c silent st).2
       (subscribe shouldLog name message c silent st).1.
Hypothesis R_unsubscribe : ∀ st name message c silent,
  Coherent st →
  R st (unsubscribe shouldLog name message c silent st).2
       (unsubscribe shouldLog name message c silent st).1.
Hypothesis R_turn : ∀ c st r sub held,
  Coherent st → sockets st !! c = Some held → r ∈ held →
  heap st !! r = Some sub → subscriptions st !! Subscription.name sub = Some r →
  R st (drop_trace st c sub) (dropped st r c sub).
Hypothesis R_ack : ∀ st c m, R st [SocketSendAckMessage c m] st.
Hypothesis R_error : ∀ st a, R st [LoggerError a] st.
Hypothesis R_setAction : ∀ st name value, R st [] (setAction name value st).1.
Hypothesis R_listener : ∀ st,
  R st [ClusterStateOnAdd; ClusterStateOnRemove] (with_listener true st).

Lemma run_rel call st :
  Coherent st → R st (run shouldLog call st).2 (run shouldLog call st).1.
Proof.
  intros HC. destruct call; cbn [run].
  - by apply R_subscribe.
  - by apply R_unsubscribe.
  - unfold subscribeBulk. rewrite seq_fst, seq_snd.
    eapply R_trans.
    + apply (forEach_rel R R_refl R_trans); [|done].
      intros n s HCs. split; [by apply Coherent_subscribe | by apply R_subscribe].
    + destruct silent; [apply R_refl | apply R_ack].
  - unfold unsubscribeBulk. rewrite seq_fst, seq_snd.
    eapply R_trans.
    + apply (forEach_rel R R_refl R_trans); [|done].
      intros n s HCs. split; [by apply Coherent_unsubscribe | by apply R_unsubscribe].
    + destruct silent; [apply R_refl | apply R_ack].
  - unfold onSocketClose. destruct (sockets st !! socket) as [held|] eqn:Hh.
    + apply (forOfLive_rel R R_refl R_trans); [|done]. apply R_turn.
    + apply R_error.
  - apply R_setAction.
  - apply R_listener.
Qed.

Lemma run_all_calls calls st :
  Coherent st → R st (run_all shouldLog calls st).2 (run_all shouldLog calls st).1.
Proof.
  intros HC. apply (run_all_rel shouldLog R R_refl R_trans); [|done].
  intros. by apply run_rel.
Qed.
End Calls.

(** ** The calls on the cluster state registry and on the listener *)

Lemma count_app p t1 t2 : count p (t1 ++ t2) = count p t1 + count p t2.
Proof. unfold count. by rewrite List.filter_app, length_app. Qed.

Lemma balanced_refl name st : balanced name st [] st.
Proof. done. Qed.

Lemma balanced_trans name st1 t1 st2 t2 st3 :
  balanced name st1 t1 st2 → balanced name st2 t2 st3 → balanced name st1 (t1 ++ t2) st3.
Proof. unfold balanced. rewrite !count_app. lia. Qed.

Lemma balanced_same name st t st' :
  count (is_cluster_add_of name) t = 0 → count (is_cluster_remove_of name) t = 0 →
  getLocalSubscribers st' name = getLocalSubscribers st name →
  balanced name st t st'.
Proof. unfold balanced. intros -> -> ->. done. Qed.

Lemma count_join_trace shouldLog st name message c silent n :
  count (is_cluster_add_of n) (join_trace shouldLog st name message c silent)
  = (if decide (n = name) then 1 else 0)
  ∧ count (is_cluster_remove_of n) (join_trace shouldLog st name message c silent) = 0.
Proof.
  unfold join_trace, count.
  destruct (bool_decide (length _ = 0)), (subscriptionListener st), silent, (shouldLog DEBUG);
    cbn; case_bool_decide; case_decide; try done; congruence.
Qed.

Lemma count_drop_trace st c sub n :
  count (is_cluster_add_of n) (drop_trace st c sub) = 0
  ∧ count (is_cluster_remove_of n) (drop_trace st c sub)
    = (if decide (n = Subscription.name sub) then 1 else 0).
Proof.
  unfold drop_trace, count.
  destruct (bool_decide (length _ = 0)), (subscriptionListener st);
    cbn; case_bool_decide; case_decide; try done; congruence.
Qed.

Lemma balanced_dropped name st r c sub :
  Coherent st → heap st !! r = Some sub →
  subscriptions st !! Subscription.name sub = Some r →
  c ∈ Subscription.sockets sub →
  balanced name st (drop_trace st c sub) (dropped st r c sub).
Proof.
  intros [HI HN _] Hr Hn Hc. unfold balanced.
  destruct (count_drop_trace st c sub name) as [-> ->].
  rewrite getLocalSubscribers_dropped by done. case_decide as Hd; [|done].
  subst name. rewrite (getLocalSubscribers_entry st _ r sub) by done.
  rewrite <- (length_set_delete c (Subscription.sockets sub)); [lia| by eapply HN | done].
Qed.

Section Balance.
Variable shouldLog : LOG_LEVEL → bool.

Lemma balanced_subscribe n st name message c silent :
  Coherent st →
  balanced n st (subscribe shouldLog name message c silent st).2
                (subscribe shouldLog name message c silent st).1.
Proof.
  intros [HI HN HX]. unfold balanced.
  rewrite getLocalSubscribers_subscribe by done.
  assert (Hjoin : c ∉ getLocalSubscribers st name →
    count (is_cluster_add_of n) (join_trace shouldLog st name message c silent)
    + length (getLocalSubscribers st n)
    = count (is_cluster_remove_of n) (join_trace shouldLog st name message c silent)
      + length (if decide (n = name) then set_add c (getLocalSubscribers st name)
                else getLocalSubscribers st n)).
  { intros Hc. destruct (count_join_trace shouldLog st name message c silent n) as [-> ->].
    case_decide as Hd; [|done]. subst n. rewrite length_set_add by done. lia. }
  destruct (subscriptions st !! name) as [r|] eqn:Hn.
  - destruct (inv_installed _ HI _ _ Hn) as (sub & Hr & Hnm & Hne).
    pose proof (getLocalSubscribers_entry st name r sub Hn Hr) as Hloc.
    destruct (decide (c ∈ Subscription.sockets sub)) as [Hc|Hc].
    + erewrite subscribe_duplicate by done. cbn [snd].
      assert (count (is_cluster_add_of n) (duplicate_trace shouldLog st name message c) = 0
              ∧ count (is_cluster_remove_of n)
                  (duplicate_trace shouldLog st name message c) = 0) as [-> ->].
      { unfold duplicate_trace, count. by destruct (shouldLog WARN). }
      case_decide as Hd; [|done]. subst n. by rewrite set_add_elem by by rewrite Hloc.
    + erewrite subscribe_present by done. cbn [snd]. apply Hjoin. by rewrite Hloc.
  - rewrite subscribe_absent by done. cbn [snd]. apply Hjoin.
    unfold getLocalSubscribers. rewrite Hn. apply not_elem_of_nil.
Qed.

Lemma balanced_unsubscribe n st name message c silent :
  Coherent st →
  balanced n st (unsubscribe shouldLog name message c silent st).2
                (unsubscribe shouldLog name message c silent st).1.
Proof.
  intros HC. pose proof (coherent_inv _ HC) as HI.
  assert (Hstranger : ∀ st',
    getLocalSubscribers st' n = getLocalSubscribers st n →
    balanced n st (stranger_trace shouldLog st name message c silent) st').
  { intros st' Heq. apply balanced_same; [..|done];
      unfold stranger_trace, count; by destruct silent, (shouldLog WARN). }
  destruct (subscriptions st !! name) as [r|] eqn:Hn.
  - destruct (inv_installed _ HI _ _ Hn) as (sub & Hr & Hnm & Hne).
    destruct (decide (c ∈ Subscription.sockets sub)) as [Hc|Hc].
    + erewrite unsubscribe_member by done. cbn [fst snd]. unfold leave_trace.
      eapply balanced_trans; [apply balanced_dropped; try done; by rewrite Hnm|].
      apply balanced_same; [..|done]; unfold count; by destruct silent, (shouldLog DEBUG).
    + erewrite unsubscribe_stranger by done. by apply Hstranger.
  - rewrite unsubscribe_absent by done. by apply Hstranger.
Qed.

(** X6: over any sequence of calls, the [add] and [remove] calls the
    registry makes on the cluster state registry for a name match the change
    in the number of local subscribers of that name; from a state without
    subscribers of the name, [add]s exceed [remove]s by the number of
    subscribers the name has at the end. *)
Theorem cluster_balance st calls name :
  reachable shouldLog st →
  let out := run_all shouldLog calls st in
  count (is_cluster_add_of name) out.2 + length (getLocalSubscribers st name)
  = count (is_cluster_remove_of name) out.2 + length (getLocalSubscribers out.1 name)
  ∧ (getLocalSubscribers st name = [] →
     count (is_cluster_add_of name) out.2
     = count (is_cluster_remove_of name) out.2 + length (getLocalSubscribers out.1 name)).
Proof.
  intros HC%reachable_Coherent out.
  assert (balanced name st out.2 out.1) as Hb.
  { refine (run_all_calls shouldLog (balanced name) _ _ _ _ _ _ _ _ _ calls st HC).
    - apply balanced_refl.
    - apply balanced_trans.
    - intros. by apply balanced_subscribe.
    - intros. by apply balanced_unsubscribe.
    - intros c s r sub held HCs Hh Hin Hr Hn.
      destruct (inv_held _ (coherent_inv _ HCs) _ _ _ Hh Hin) as (sub' & Hr' & _ & Hc).
      apply balanced_dropped; try done. congruence.
    - done.
    - done.
    - done.
    - done. }
  split; [exact Hb|]. intros Hnil. unfold balanced in Hb. rewrite Hnil in Hb.
  cbn in Hb. lia.
Qed.
End Balance.

Lemma cluster_balance_witness :
  let calls :=
    [ Subscribe "a" (Sample.request 3 "a") 1 false;
      Subscribe "a" (Sample.request 3 "a") 2 false;
      Subscribe "a" (Sample.request 3 "a") 1 false;
      SocketClose 2 ] in
  let out := run_all Sample.quiet calls Sample.empty in
  reachable Sample.quiet Sample.empty
  ∧ count (is_cluster_add_of "a") out.2 + length (getLocalSubscribers Sample.empty "a")
    = count (is_cluster_remove_of "a") out.2 + length (getLocalSubscribers out.1 "a").
Proof.
  intros calls out. pose proof (reachable_sample Sample.quiet) as Hst.
  split; [exact Hst|].
  pose proof (cluster_balance Sample.quiet Sample.empty calls "a" Hst) as [Hb _].
  exact Hb.
Defined.

Lemma member_iff st st' name c name' :
  (c ∈ getLocalSubscribers st name ↔ c ∈ getLocalSubscribers st' name') →
  member st name c = member st' name' c.
Proof. intros Hiff. unfold member. by rewrite (bool_decide_ext _ _ Hiff). Qed.

Lemma member_true st name c : c ∈ getLocalSubscribers st name → member st name c = 1.
Proof. intros Hc. unfold member. by rewrite bool_decide_eq_true_2. Qed.

Lemma member_false st name c : c ∉ getLocalSubscribers st name → member st name c = 0.
Proof. intros Hc. unfold member. by rewrite bool_decide_eq_false_2. Qed.

Lemma notified_trans name c st1 t1 st2 t2 st3 :
  notified name c st1 t1 st2 → notified name c st2 t2 st3 →
  notified name c st1 (t1 ++ t2) st3.
Proof. unfold notified. rewrite !count_app. lia. Qed.

Lemma notified_same name c st t st' :
  count (is_made_of name c) t = 0 → count (is_removed_of name c) t = 0 →
  getLocalSubscribers st' name = getLocalSubscribers st name →
  notified name c st t st'.
Proof. unfold notified, member. intros -> -> ->. done. Qed.

Lemma listener_join_trace shouldLog st name message c silent n c0 :
  subscriptionListener st = true →
  count (is_made_of n c0) (join_trace shouldLog st name message c silent)
  = (if decide (n = name ∧ c0 = c) then 1 else 0)
  ∧ count (is_removed_of n c0) (join_trace shouldLog st name message c silent) = 0.
Proof.
  intros Hl. unfold join_trace, count. rewrite Hl.
  destruct (bool_decide (length _ = 0)), silent, (shouldLog DEBUG);
    cbn; case_bool_decide; case_decide; try done; exfalso;
    match goal with
    | Hno : ¬ _, Hyes : _ ∧ _ |- _ => apply Hno; destruct Hyes; split; congruence
    end.
Qed.

Lemma listener_drop_trace st c sub n c0 :
  subscriptionListener st = true →
  count (is_made_of n c0) (drop_trace st c sub) = 0
  ∧ count (is_removed_of n c0) (drop_trace st c sub)
    = (if decide (n = Subscription.name sub ∧ c0 = c) then 1 else 0).
Proof.
  intros Hl. unfold drop_trace, count. rewrite Hl.
  destruct (bool_decide (length _ = 0));
    cbn; case_bool_decide; case_decide; try done; exfalso;
    match goal with
    | Hno : ¬ _, Hyes : _ ∧ _ |- _ => apply Hno; destruct Hyes; split; congruence
    end.
Qed.

Lemma notified_dropped name c0 st r c sub :
  Coherent st → subscriptionListener st = true →
  heap st !! r = Some sub →
  subscriptions st !! Subscription.name sub = Some r →
  c ∈ Subscription.sockets sub →
  notified name c0 st (drop_trace st c sub) (dropped st r c sub).
Proof.
  intros [HI _ _] Hl Hr Hn Hc. unfold notified.
  destruct (listener_drop_trace st c sub name c0 Hl) as [-> ->].
  pose proof (getLocalSubscribers_dropped st r c sub name HI Hr Hn) as Hloc.
  pose proof (getLocalSubscribers_entry st _ r sub Hn Hr) as Hentry.
  destruct (decide (name = Subscription.name sub ∧ c0 = c)) as [Hd|Hd].
  - destruct Hd as [-> ->]. rewrite decide_True in Hloc by done.
    rewrite (member_true st) by by rewrite Hentry.
    rewrite member_false; [done|]. rewrite Hloc, elem_of_set_delete. by intros [_ ?].
  - cbn. apply member_iff. rewrite Hloc. case_decide as Hd'; [|done].
    subst name. rewrite elem_of_set_delete, Hentry. split; [|tauto].
    intros Hc0. split; [done|]. intros ->. by apply Hd.
Qed.

Section Listener.
Variable shouldLog : LOG_LEVEL → bool.

Lemma notified_subscribe n c0 st name message c silent :
  Coherent st → subscriptionListener st = true →
  notified n c0 st (subscribe shouldLog name message c silent st).2
                   (subscribe shouldLog name message c silent st).1.
Proof.
  intros [HI _ _] Hl. unfold notified.
  pose proof (getLocalSubscribers_subscribe shouldLog st name message c silent n HI) as Hloc.
  assert (Hjoin : c ∉ getLocalSubscribers st name →
    count (is_made_of n c0) (join_trace shouldLog st name message c silent)
    + member st n c0
    = count (is_removed_of n c0) (join_trace shouldLog st name message c silent)
      + member (subscribe shouldLog name message c silent st).1 n c0).
  { intros Hc. destruct (listener_join_trace shouldLog st name message c silent n c0 Hl)
      as [-> ->].
    destruct (decide (n = name ∧ c0 = c)) as [Hd|Hd].
    - destruct Hd as [-> ->]. rewrite decide_True in Hloc by done.
      rewrite (member_false st) by done.
      rewrite member_true; [done|]. rewrite Hloc. apply elem_of_set_add. by left.
    - cbn. apply member_iff. rewrite Hloc. case_decide as Hd'; [|done].
      subst n. rewrite elem_of_set_add. split; [tauto|].
      intros [->|?]; [|done]. by destruct Hd. }
  destruct (subscriptions st !! name) as [r|] eqn:Hn.
  - destruct (inv_installed _ HI _ _ Hn) as (sub & Hr & Hnm & Hne).
    pose proof (getLocalSubscribers_entry st name r sub Hn Hr) as Hentry.
    destruct (decide (c ∈ Subscription.sockets sub)) as [Hc|Hc].
    + erewrite subscribe_duplicate by done. cbn [fst snd].
      assert (count (is_made_of n c0) (duplicate_trace shouldLog st name message c) = 0
              ∧ count (is_removed_of n c0)
                  (duplicate_trace shouldLog st name message c) = 0) as [-> ->].
      { unfold duplicate_trace, count. by destruct (shouldLog WARN). }
      done.
    + rewrite <- Hentry in Hc. specialize (Hjoin Hc).
      by erewrite subscribe_present in Hjoin |- * by (try done; by rewrite <- Hentry).
  - assert (c ∉ getLocalSubscribers st name) as Hc.
    { unfold getLocalSubscribers. rewrite Hn. apply not_elem_of_nil. }
    specialize (Hjoin Hc). by rewrite subscribe_absent in Hjoin |- * by done.
Qed.

Lemma notified_unsubscribe n c0 st name message c silent :
  Coherent st → subscriptionListener st = true →
  notified n c0 st (unsubscribe shouldLog name message c silent st).2
                   (unsubscribe shouldLog name message c silent st).1.
Proof.
  intros HC Hl. pose proof (coherent_inv _ HC) as HI.
  assert (Hstranger :
    notified n c0 st (stranger_trace shouldLog st name message c silent) st).
  { apply notified_same; [..|done];
      unfold stranger_trace, count; by destruct silent, (shouldLog WARN). }
  destruct (subscriptions st !! name) as [r|] eqn:Hn.
  - destruct (inv_installed _ HI _ _ Hn) as (sub & Hr & Hnm & Hne).
    destruct (decide (c ∈ Subscription.sockets sub)) as [Hc|Hc].
    + erewrite unsubscribe_member by done. cbn [fst snd]. unfold leave_trace.
      eapply notified_trans; [apply notified_dropped; try done; by rewrite Hnm|].
      apply notified_same; [..|done]; unfold count; by destruct silent, (shouldLog DEBUG).
    + by erewrite unsubscribe_stranger.
  - by rewrite unsubscribe_absent.
Qed.

(** X7: once a subscription listener is installed it stays installed, and
    over any sequence of calls its [onSubscriptionMade] and
    [onSubscriptionRemoved] callbacks for a name and a connection match
    the connection's becoming and ceasing to be a subscriber of the name:
    made + (1 if subscribed before) = removed + (1 if subscribed after). *)
Theorem listener_balance st calls name c :
  reachable shouldLog st →
  subscriptionListener st = true →
  let out := run_all shouldLog calls st in
  subscriptionListener out.1 = true
  ∧ count (is_made_of name c) out.2 + member st name c
    = count (is_removed_of name c) out.2 + member out.1 name c.
Proof.
  intros HC%reachable_Coherent Hl out.
  refine (run_all_calls shouldLog
            (λ s t s', subscriptionListener s = true →
                       subscriptionListener s' = true ∧ notified name c s t s')
            _ _ _ _ _ _ _ _ _ calls st HC Hl).
  - done.
  - intros s1 t1 s2 t2 s3 H12 H23 Hl1. destruct (H12 Hl1) as [Hl2 N12].
    destruct (H23 Hl2) as [Hl3 N23]. split; [done|]. by eapply notified_trans.
  - intros s n m c' silent HCs Hls. split; [|by apply notified_subscribe].
    destruct (subscribe_post shouldLog s n m c' silent (coherent_inv _ HCs))
      as (_ & _ & _ & ->). done.
  - intros s n m c' silent HCs Hls. split; [|by apply notified_unsubscribe].
    pose proof (coherent_inv _ HCs) as HIs.
    destruct (subscriptions s !! n) as [r|] eqn:Hn.
    + destruct (inv_installed _ HIs _ _ Hn) as (sub & Hr & Hnm & Hne).
      destruct (decide (c' ∈ Subscription.sockets sub)) as [Hc|Hc].
      * by erewrite unsubscribe_member.
      * by erewrite unsubscribe_stranger.
    + by rewrite unsubscribe_absent.
  - intros c' s r sub held HCs Hh Hin Hr Hn Hls. split; [done|].
    destruct (inv_held _ (coherent_inv _ HCs) _ _ _ Hh Hin) as (sub' & Hr' & _ & Hc).
    apply notified_dropped; try done. congruence.
  - done.
  - done.
  - done.
  - done.
Qed.
End Listener.

Lemma listener_balance_witness :
  let st := (run_all Sample.quiet [ SetSubscriptionListener ] Sample.empty).1 in
  let calls :=
    [ Subscribe "a" (Sample.request 3 "a") 1 false;
      Unsubscribe "a" (Sample.request 4 "a") 1 false;
      Subscribe "a" (Sample.request 3 "a") 1 false ] in
  let out := run_all Sample.quiet calls st in
  reachable Sample.quiet st
  ∧ subscriptionListener st = true
  ∧ count (is_made_of "a" 1) out.2 + member st "a" 1
    = count (is_removed_of "a" 1) out.2 + member out.1 "a" 1.
Proof.
  intros st calls out.
  assert (reachable Sample.quiet st) as Hst by apply reachable_run_all, reachable_sample.
  assert (subscriptionListener st = true) as Hl by reflexivity.
  split; [exact Hst|]. split; [exact Hl|].
  pose proof (listener_balance Sample.quiet st calls "a" 1 Hst Hl) as [_ Hb].
  exact Hb.
Defined.

(** ** Who receives a broadcast *)

Lemma omap_built_for_fmap (bytes : list Byte.byte) (l : list nat) :
  omap built_for (map (λ socket, SocketSendBuiltMessage socket bytes true) l) = l.
Proof. induction l as [|s l IH]; cbn; [done|]. by rewrite IH. Qed.

Lemma omap_built_for_forwarded M sender suppressRemote :
  omap built_for (forwarded M sender suppressRemote) = [].
Proof. unfold forwarded. by destruct (_ && _). Qed.

Lemma filter_not_sender (sender : option nat) (l : list nat) :
  filter (λ s, Some s ≠ sender) l =
    match sender with Some x => set_delete x l | None => l end.
Proof.
  destruct sender as [x|].
  - unfold set_delete. apply list_filter_iff. intros s. split; congruence.
  - induction l as [|s l IH]; [done|]. rewrite filter_cons_True by done. by rewrite IH.
Qed.

Section Receivers.
Variable shouldLog : LOG_LEVEL → bool.
Variable getMessage : nat → Message → list Byte.byte.

(** X5: a broadcast is handed to every local subscriber of the name other
    than the sender exactly once, in the order of the set, and to no other
    connection; a subscriber set lists no connection twice. *)
Theorem fanout_receivers st name M noDelay sender suppressRemote :
  reachable shouldLog st →
  let out := sendToSubscribers getMessage name M noDelay sender suppressRemote st in
  let receivers := omap built_for out.1 in
  NoDup (getLocalSubscribers st name)
  ∧ receivers = filter (λ s, Some s ≠ sender) (getLocalSubscribers st name)
  ∧ NoDup receivers
  ∧ length receivers =
      match sender with
      | Some s => if bool_decide (s ∈ getLocalSubscribers st name)
                  then length (getLocalSubscribers st name) - 1
                  else length (getLocalSubscribers st name)
      | None => length (getLocalSubscribers st name)
      end.
Proof.
  intros [HI HN _]%reachable_Coherent out receivers.
  assert (Hnd : NoDup (getLocalSubscribers st name)).
  { unfold getLocalSubscribers. destruct (subscriptions st !! name) as [r|]; [|constructor].
    destruct (heap st !! r) as [sub|] eqn:Hr; [by eapply HN | constructor]. }
  assert (Hrec : receivers = filter (λ s, Some s ≠ sender) (getLocalSubscribers st name)).
  { unfold receivers, out. destruct (subscriptions st !! name) as [r|] eqn:Hn.
    - destruct (inv_installed _ HI _ _ Hn) as (sub & Hr & _ & Hne).
      destruct (Subscription.sockets sub) as [|first rest] eqn:Hs; [done|].
      erewrite sendToSubscribers_entry by done. cbn [fst].
      rewrite omap_app, omap_built_for_forwarded. cbn [omap list_omap built_for app].
      rewrite omap_built_for_fmap. by rewrite (getLocalSubscribers_entry st name r sub).
    - rewrite sendToSubscribers_no_entry by done. cbn [fst].
      rewrite omap_built_for_forwarded. unfold getLocalSubscribers. by rewrite Hn. }
  split; [done|]. split; [done|]. rewrite Hrec. split; [by apply NoDup_filter|].
  rewrite filter_not_sender. destruct sender as [x|]; [|done].
  case_bool_decide as Hx.
  - rewrite <- (length_set_delete x (getLocalSubscribers st name)) by done. cbn. lia.
  - by rewrite set_delete_fresh.
Qed.
End Receivers.

Lemma fanout_receivers_witness :
  let st := (run_all Sample.quiet
               [ Subscribe "room/1" (Sample.request 3 "room/1") 1 true;
                 Subscribe "room/1" (Sample.request 3 "room/1") 2 true;
                 Subscribe "room/1" (Sample.request 3 "room/1") 3 true ] Sample.empty).1 in
  let out := sendToSubscribers Sample.render "room/1" (Sample.request 7 "room/1")
               false (Some 2) false st in
  reachable Sample.quiet st
  ∧ omap built_for out.1 = filter (λ s, Some s ≠ Some 2) (getLocalSubscribers st "room/1").
Proof.
  intros st out.
  assert (reachable Sample.quiet st) as Hst by apply reachable_run_all, reachable_sample.
  split; [exact Hst|].
  pose proof (fanout_receivers Sample.quiet Sample.render st "room/1"
                (Sample.request 7 "room/1") false (Some 2) false Hst) as (_ & Hrec & _).
  exact Hrec.
Defined.

(** ** What a single subscribe or unsubscribe emits *)

Lemma held_names_nil st c :
  Inv st → (held_names st c = [] ↔ default [] (sockets st !! c) = []).
Proof.
  intros HI. unfold held_names. split; [|by intros ->].
  destruct (sockets st !! c) as [held|] eqn:Hh; [|done]. cbn [default from_option].
  destruct held as [|r held]; [done|]. intros Hnil.
  destruct (inv_held _ HI _ _ r Hh) as (sub & Hr & _); [apply list_elem_of_here|].
  cbn in Hnil. unfold name_of in Hnil at 1. by rewrite Hr in Hnil.
Qed.

Lemma only_member {A} `{EqDecision A} (x : A) (s : list A) :
  NoDup s → x ∈ s → (set_delete x s = [] ↔ s = [x]).
Proof.
  intros Hnd Hx. split.
  - intros Hnil. pose proof (length_set_delete x s Hnd Hx) as Hlen.
    rewrite Hnil in Hlen. destruct s as [|y [|z s]]; try done.
    apply list_elem_of_singleton in Hx. by subst.
  - intros ->. unfold set_delete.
    rewrite filter_cons_False by (intros Hn; by apply Hn). apply filter_nil.
Qed.

Section SingleCalls.
Variable shouldLog : LOG_LEVEL → bool.

(** X8: [unsubscribe] for a name the connection is not subscribed to --
    the name is unknown, or others are subscribed to it -- leaves the
    registry as it is, makes no call on the cluster state registry or the
    listener, sends no ACK and, unless [silent], sends the connection one
    NOT_SUBSCRIBED message carrying the request's action as
    [originalAction]. *)
Theorem unsubscribe_unknown st name message c silent :
  reachable shouldLog st →
  c ∉ getLocalSubscribers st name →
  let out := unsubscribe shouldLog name message c silent st in
  out.1 = st
  ∧ out.2 =
      (if silent then []
       else (if shouldLog WARN
             then [LoggerWarn (constant st "NOT_SUBSCRIBED") name c] else [])
            ++ [SocketSendMessage c
                  {| msg_topic := topic st;
                     msg_action := constant st "NOT_SUBSCRIBED";
                     msg_originalAction := msg_action message;
                     msg_name := Some name;
                     msg_names := [];
                     msg_correlationId := None;
                     msg_data := None |}]).
Proof.
  intros HI%reachable_Inv Hc. cbn zeta.
  destruct (subscriptions st !! name) as [r|] eqn:Hn.
  - destruct (inv_installed _ HI _ _ Hn) as (sub & Hr & Hnm & Hne).
    rewrite (getLocalSubscribers_entry st name r sub) in Hc by done.
    by erewrite unsubscribe_stranger.
  - by rewrite unsubscribe_absent.
Qed.

(** X9: a [subscribe] that is not a duplicate registers the close hook
    iff the connection holds no subscription yet, calls [add(name)] on the
    cluster state registry once, notifies the listener if one is installed
    and, unless [silent], acknowledges with the request message itself. *)
Theorem subscribe_new_events st name message c silent :
  reachable shouldLog st →
  c ∉ getLocalSubscribers st name →
  (subscribe shouldLog name message c silent st).2 =
    (if bool_decide (held_names st c = []) then [SocketOnClose c] else [])
    ++ [ClusterStateAdd name]
    ++ (if subscriptionListener st then [ListenerOnSubscriptionMade name c] else [])
    ++ (if silent then []
        else (if shouldLog DEBUG
              then [LoggerDebug (constant st "SUBSCRIBE") name c] else [])
             ++ [SocketSendAckMessage c message]).
Proof.
  intros HI%reachable_Inv Hc.
  assert (Hshape : join_trace shouldLog st name message c silent =
    (if bool_decide (held_names st c = []) then [SocketOnClose c] else [])
    ++ [ClusterStateAdd name]
    ++ (if subscriptionListener st then [ListenerOnSubscriptionMade name c] else [])
    ++ (if silent then []
        else (if shouldLog DEBUG
              then [LoggerDebug (constant st "SUBSCRIBE") name c] else [])
             ++ [SocketSendAckMessage c message])).
  { unfold join_trace.
    rewrite (bool_decide_ext _ _ (held_names_nil st c HI)).
    by rewrite (bool_decide_ext _ _ (length_zero_nil (default [] (sockets st !! c)))). }
  destruct (subscriptions st !! name) as [r|] eqn:Hn.
  - destruct (inv_installed _ HI _ _ Hn) as (sub & Hr & Hnm & Hne).
    rewrite (getLocalSubscribers_entry st name r sub) in Hc by done.
    by erewrite subscribe_present.
  - by rewrite subscribe_absent.
Qed.

(** X10: an [unsubscribe] of a subscriber unregisters the close hook iff
    the connection was the only subscriber of the name, notifies the
    listener if one is installed, calls [remove(name)] on the cluster state
    registry once and, unless [silent], acknowledges with the request
    message itself; it sends no NOT_SUBSCRIBED. *)
Theorem unsubscribe_member_events st name message c silent :
  reachable shouldLog st →
  c ∈ getLocalSubscribers st name →
  (unsubscribe shouldLog name message c silent st).2 =
    (if bool_decide (getLocalSubscribers st name = [c])
     then [SocketRemoveOnClose c] else [])
    ++ (if subscriptionListener st then [ListenerOnSubscriptionRemoved name c] else [])
    ++ [ClusterStateRemove name]
    ++ (if silent then []
        else (if shouldLog DEBUG
              then [LoggerDebug (constant st "UNSUBSCRIBE") name c] else [])
             ++ [SocketSendAckMessage c message]).
Proof.
  intros [HI HN _]%reachable_Coherent Hc.
  destruct (subscriptions st !! name) as [r|] eqn:Hn.
  - destruct (inv_installed _ HI _ _ Hn) as (sub & Hr & Hnm & Hne).
    rewrite (getLocalSubscribers_entry st name r sub) in Hc |- * by done.
    erewrite unsubscribe_member by done. cbn [snd].
    unfold leave_trace, drop_trace. rewrite Hnm, <- !app_assoc.
    assert (set_delete c (Subscription.sockets sub) = [] ↔ Subscription.sockets sub = [c])
      as Honly by (apply only_member; [by eapply HN | done]).
    rewrite (bool_decide_ext _ _
               (length_zero_nil (set_delete c (Subscription.sockets sub)))).
    by rewrite (bool_decide_ext _ _ Honly).
  - unfold getLocalSubscribers in Hc. rewrite Hn in Hc. by apply elem_of_nil in Hc.
Qed.
End SingleCalls.

Lemma unsubscribe_unknown_witness :
  let out := unsubscribe Sample.quiet "y" (Sample.request 4 "y") 1 false Sample.empty in
  reachable Sample.quiet Sample.empty
  ∧ (1 ∉ getLocalSubscribers Sample.empty "y")
  ∧ out.1 = Sample.empty.
Proof.
  intros out. pose proof (reachable_sample Sample.quiet) as Hst.
  assert (1 ∉ getLocalSubscribers Sample.empty "y") as Hc by apply not_elem_of_nil.
  split; [exact Hst|]. split; [exact Hc|].
  pose proof (unsubscribe_unknown Sample.quiet Sample.empty "y" (Sample.request 4 "y") 1
                false Hst Hc) as [Hsame _].
  exact Hsame.
Defined.

Lemma subscribe_new_events_witness :
  reachable Sample.quiet Sample.empty
  ∧ (1 ∉ getLocalSubscribers Sample.empty "x")
  ∧ (subscribe Sample.quiet "x" (Sample.request 3 "x") 1 false Sample.empty).2
    = [SocketOnClose 1; ClusterStateAdd "x";
       SocketSendAckMessage 1 (Sample.request 3 "x")].
Proof.
  pose proof (reachable_sample Sample.quiet) as Hst.
  assert (1 ∉ getLocalSubscribers Sample.empty "x") as Hc by apply not_elem_of_nil.
  split; [exact Hst|]. split; [exact Hc|].
  exact (subscribe_new_events Sample.quiet Sample.empty "x" (Sample.request 3 "x") 1
           false Hst Hc).
Defined.

Lemma unsubscribe_member_events_witness :
  let st := (run_all Sample.quiet
               [ Subscribe "x" (Sample.request 3 "x") 1 false;
                 Subscribe "x" (Sample.request 3 "x") 2 false ] Sample.empty).1 in
  reachable Sample.quiet st
  ∧ 1 ∈ getLocalSubscribers st "x"
  ∧ (unsubscribe Sample.quiet "x" (Sample.request 4 "x") 1 false st).2
    = [ClusterStateRemove "x"; SocketSendAckMessage 1 (Sample.request 4 "x")].
Proof.
  intros st.
  assert (reachable Sample.quiet st) as Hst by apply reachable_run_all, reachable_sample.
  assert (1 ∈ getLocalSubscribers st "x") as Hc by apply list_elem_of_here.
  split; [exact Hst|]. split; [exact Hc|].
  exact (unsubscribe_member_events Sample.quiet st "x" (Sample.request 4 "x") 1
           false Hst Hc).
Defined.

(** ** More on the close hook *)

Lemma omap_removed_name_drop_trace st c sub :
  omap removed_name (drop_trace st c sub) = [Subscription.name sub].
Proof.
  unfold drop_trace. by destruct (bool_decide _), (subscriptionListener st).
Qed.

Lemma forOfLive_removed c pending : ∀ st held,
  Inv st → sockets st !! c = Some held →
  NoDup pending → (∀ r, r ∈ pending → r ∈ held) →
  omap removed_name
    (forOfLive c pending (λ r, sockets_delete r c ;; removeSocket r c) st).2
  = omap (name_of st) pending.
Proof.
  induction pending as [|r pending IH]; intros st held HI Hh Hnd Hsub; [done|].
  assert (Hin : r ∈ held) by apply Hsub, list_elem_of_here.
  destruct (close_turn st c held r HI Hh Hin) as (sub & Hr & Hn & Heq).
  apply NoDup_cons in Hnd as [Hnotin Hnd].
  cbn [forOfLive]. rewrite seq_snd. rewrite Hh. cbn [default from_option].
  unfold set_has. rewrite bool_decide_eq_true_2, Heq by done. cbn [fst snd].
  rewrite omap_app, omap_removed_name_drop_trace.
  rewrite (IH _ (set_delete r held)).
  - cbn [omap list_omap]. unfold name_of at 2. rewrite Hr. cbn. f_equal.
    apply omap_pointwise. intros r'. by apply name_of_dropped.
  - by apply Inv_dropped.
  - rewrite sockets_dropped, lookup_forget, decide_True by done. by rewrite Hh.
  - done.
  - intros r' Hr'. apply elem_of_set_delete. split; [by apply Hsub; right|].
    by intros ->.
Qed.

Section Closing.
Variable shouldLog : LOG_LEVEL → bool.

(** X11: when the close hook of a connection has run, running it again
    does nothing: the entry of the connection is still there, empty, so
    there is nothing to remove and -- unlike for a connection that never had
    an entry -- no error is logged. *)
Theorem onSocketClose_twice st c :
  reachable shouldLog st →
  is_Some (sockets st !! c) →
  let once := onSocketClose c st in
  onSocketClose c once.1 = (once.1, []).
Proof.
  intros HI%reachable_Inv [held Hh]. cbn zeta.
  pose proof (onSocketClose_held st c held HI Hh) as Hafter.
  unfold onSocketClose at 1. by rewrite Hafter.
Qed.

(** X12: the close hook of a connection calls [remove] on the cluster
    state registry once for each name the connection holds, in the order of
    its set; it sends nothing to any socket: its events are [removeOnClose]
    on the connection, [onSubscriptionRemoved] for the connection and the
    [remove] calls.  For a connection without an entry it logs an error and
    leaves the registry as it is. *)
Theorem onSocketClose_events st c :
  reachable shouldLog st →
  let out := onSocketClose c st in
  (is_Some (sockets st !! c) →
   omap removed_name out.2 = held_names st c
   ∧ Forall (λ e, e = SocketRemoveOnClose c
                  ∨ (∃ n, e = ListenerOnSubscriptionRemoved n c)
                  ∨ (∃ n, e = ClusterStateRemove n)) out.2)
  ∧ (sockets st !! c = None →
     out = (st, [LoggerError (constant st "NOT_SUBSCRIBED")])).
Proof.
  intros HC%reachable_Coherent out. pose proof (coherent_inv _ HC) as HI. split.
  - intros [held Hh]. unfold out, onSocketClose, held_names. rewrite Hh.
    cbn [default from_option]. split.
    + apply (forOfLive_removed c held st held); [done..|by eapply inv_nodup|done].
    + apply (forOfLive_rel
               (λ _ t _, Forall (λ e, e = SocketRemoveOnClose c
                                      ∨ (∃ n, e = ListenerOnSubscriptionRemoved n c)
                                      ∨ (∃ n, e = ClusterStateRemove n)) t)); [..|done].
      * constructor.
      * intros _ t1 _ t2 _ H1 H2. by apply Forall_app.
      * intros s r sub _ _ _ _ _ _. unfold drop_trace.
        destruct (bool_decide _), (subscriptionListener s); cbn;
          repeat match goal with
                 | |- Forall _ (_ :: _) => apply List.Forall_cons
                 | |- Forall _ [] => apply List.Forall_nil
                 end; eauto.
  - intros Hh. unfold out, onSocketClose. by rewrite Hh.
Qed.

(** X20: no call removes an entry of [this.sockets]: a connection that has
    an entry keeps one through any sequence of calls, its own close hook
    included. *)
Theorem sockets_entries_stay st calls c :
  reachable shouldLog st →
  is_Some (sockets st !! c) →
  is_Some (sockets (run_all shouldLog calls st).1 !! c).
Proof.
  intros HC%reachable_Coherent.
  assert (Hdrop : ∀ s r c' sub,
    is_Some (sockets s !! c) → is_Some (sockets (dropped s r c' sub) !! c)).
  { intros s r c' sub [held Hh]. rewrite sockets_dropped, lookup_forget, Hh.
    by case_decide. }
  refine (run_all_calls shouldLog
            (λ s _ s', is_Some (sockets s !! c) → is_Some (sockets s' !! c))
            _ _ _ _ _ _ _ _ _ calls st HC).
  - done.
  - intros s1 _ s2 _ s3 H12 H23 H1. auto.
  - intros s n m c' silent HCs Hs. pose proof (coherent_inv _ HCs) as HIs.
    destruct (subscriptions s !! n) as [r|] eqn:Hn.
    + destruct (inv_installed _ HIs _ _ Hn) as (sub & Hr & Hnm & Hne).
      destruct (decide (c' ∈ Subscription.sockets sub)) as [Hc|Hc].
      * by erewrite subscribe_duplicate.
      * erewrite subscribe_present by done. cbn [fst].
        rewrite lookup_sockets_joined. by case_decide.
    + rewrite subscribe_absent by done. cbn [fst].
      rewrite lookup_sockets_joined. case_decide; [done|]. by rewrite sockets_installed.
  - intros s n m c' silent HCs Hs. pose proof (coherent_inv _ HCs) as HIs.
    destruct (subscriptions s !! n) as [r|] eqn:Hn.
    + destruct (inv_installed _ HIs _ _ Hn) as (sub & Hr & Hnm & Hne).
      destruct (decide (c' ∈ Subscription.sockets sub)) as [Hc|Hc].
      * erewrite unsubscribe_member by done. by apply Hdrop.
      * by erewrite unsubscribe_stranger.
    + by rewrite unsubscribe_absent.
  - intros c' s r sub held _ _ _ _ _. apply Hdrop.
  - done.
  - done.
  - done.
  - done.
Qed.
End Closing.

Lemma onSocketClose_twice_witness :
  let st := (run_all Sample.quiet
               [ Subscribe "a" (Sample.request 3 "a") 1 false;
                 Subscribe "b" (Sample.request 3 "b") 1 false ] Sample.empty).1 in
  reachable Sample.quiet st
  ∧ is_Some (sockets st !! 1)
  ∧ onSocketClose 1 (onSocketClose 1 st).1 = ((onSocketClose 1 st).1, []).
Proof.
  intros st.
  assert (reachable Sample.quiet st) as Hst by apply reachable_run_all, reachable_sample.
  assert (is_Some (sockets st !! 1)) as Hs by (by eexists).
  split; [exact Hst|]. split; [exact Hs|].
  exact (onSocketClose_twice Sample.quiet st 1 Hst Hs).
Defined.

Lemma onSocketClose_events_witness :
  let st := (run_all Sample.quiet
               [ Subscribe "a" (Sample.request 3 "a") 1 false;
                 Subscribe "b" (Sample.request 3 "b") 1 false ] Sample.empty).1 in
  reachable Sample.quiet st
  ∧ is_Some (sockets st !! 1)
  ∧ omap removed_name (onSocketClose 1 st).2 = held_names st 1.
Proof.
  intros st.
  assert (reachable Sample.quiet st) as Hst by apply reachable_run_all, reachable_sample.
  assert (is_Some (sockets st !! 1)) as Hs by (by eexists).
  split; [exact Hst|]. split; [exact Hs|].
  pose proof (onSocketClose_events Sample.quiet st 1 Hst) as [Hsome _].
  exact (proj1 (Hsome Hs)).
Defined.

Lemma sockets_entries_stay_witness :
  let st := (run_all Sample.quiet
               [ Subscribe "a" (Sample.request 3 "a") 1 false ] Sample.empty).1 in
  let calls := [ Unsubscribe "a" (Sample.request 4 "a") 1 false; SocketClose 1 ] in
  reachable Sample.quiet st
  ∧ is_Some (sockets st !! 1)
  ∧ is_Some (sockets (run_all Sample.quiet calls st).1 !! 1).
Proof.
  intros st calls.
  assert (reachable Sample.quiet st) as Hst by apply reachable_run_all, reachable_sample.
  assert (is_Some (sockets st !! 1)) as Hs by (by eexists).
  split; [exact Hst|]. split; [exact Hs|].
  exact (sockets_entries_stay Sample.quiet st calls 1 Hst Hs).
Defined.

(** ** Bulk operations and round trips, name by name *)

Lemma set_add_idemp {A} `{EqDecision A} (x : A) (s : list A) :
  set_add x (set_add x s) = set_add x s.
Proof. apply set_add_elem, elem_of_set_add. by left. Qed.

Lemma hasLocalSubscribers_ext st st' name name' :
  Inv st → Inv st' →
  getLocalSubscribers st' name' = getLocalSubscribers st name →
  hasLocalSubscribers st' name' = hasLocalSubscribers st name.
Proof.
  intros HI HI' Heq. apply Bool.eq_true_iff_eq.
  rewrite !hasLocalSubscribers_Inv by done. by rewrite Heq.
Qed.

Section BulkSubscribers.
Variable shouldLog : LOG_LEVEL → bool.

Lemma forEach_subscribe_subscribers names message c : ∀ st n,
  Inv st →
  getLocalSubscribers
    (forEach names (λ name, subscribe shouldLog name message c true) st).1 n
  = if bool_decide (n ∈ names) then set_add c (getLocalSubscribers st n)
    else getLocalSubscribers st n.
Proof.
  induction names as [|n1 names IH]; intros st n HI; cbn [forEach].
  - by rewrite bool_decide_eq_false_2 by apply not_elem_of_nil.
  - rewrite seq_fst, IH by by apply Inv_subscribe.
    rewrite !getLocalSubscribers_subscribe by done.
    destruct (decide (n = n1)) as [->|Hne].
    + rewrite (bool_decide_eq_true_2 (n1 ∈ n1 :: names)) by apply list_elem_of_here.
      case_bool_decide; [apply set_add_idemp | done].
    + rewrite (bool_decide_ext (n ∈ n1 :: names) (n ∈ names)); [done|].
      rewrite elem_of_cons. tauto.
Qed.

Lemma forEach_unsubscribe_subscribers names message c : ∀ st n,
  Inv st →
  getLocalSubscribers
    (forEach names (λ name, unsubscribe shouldLog name message c true) st).1 n
  = if bool_decide (n ∈ names) then set_delete c (getLocalSubscribers st n)
    else getLocalSubscribers st n.
Proof.
  induction names as [|n1 names IH]; intros st n HI; cbn [forEach].
  - by rewrite bool_decide_eq_false_2 by apply not_elem_of_nil.
  - rewrite seq_fst, IH by by apply Inv_unsubscribe.
    rewrite !getLocalSubscribers_unsubscribe by done.
    destruct (decide (n = n1)) as [->|Hne].
    + rewrite (bool_decide_eq_true_2 (n1 ∈ n1 :: names)) by apply list_elem_of_here.
      case_bool_decide; [apply set_delete_idemp | done].
    + rewrite (bool_decide_ext (n ∈ n1 :: names) (n ∈ names)); [done|].
      rewrite elem_of_cons. tauto.
Qed.

(** X17: [subscribeBulk] adds the connection to the subscriber set of each
    name of [message.names], repeated names counting once, and
    [unsubscribeBulk] removes it from each; no other name's set changes.
    When the connection was subscribed to none of the names,
    [unsubscribeBulk] after [subscribeBulk] restores every subscriber
    set. *)
Theorem bulk_subscribers st message c silent1 silent2 :
  reachable shouldLog st →
  let subscribed := (subscribeBulk shouldLog message c silent1 st).1 in
  let unsubscribed := (unsubscribeBulk shouldLog message c silent1 st).1 in
  let back := (unsubscribeBulk shouldLog message c silent2 subscribed).1 in
  (∀ n, getLocalSubscribers subscribed n =
          if bool_decide (n ∈ msg_names message)
          then set_add c (getLocalSubscribers st n) else getLocalSubscribers st n)
  ∧ (∀ n, getLocalSubscribers unsubscribed n =
            if bool_decide (n ∈ msg_names message)
            then set_delete c (getLocalSubscribers st n) else getLocalSubscribers st n)
  ∧ ((∀ n, n ∈ msg_names message → c ∉ getLocalSubscribers st n) →
     ∀ n, getLocalSubscribers back n = getLocalSubscribers st n
          ∧ hasLocalSubscribers back n = hasLocalSubscribers st n).
Proof.
  intros Hst subscribed unsubscribed back. pose proof (reachable_Inv _ _ Hst) as HI.
  assert (Hsub : ∀ s silent n, Inv s →
    getLocalSubscribers (subscribeBulk shouldLog message c silent s).1 n =
      if bool_decide (n ∈ msg_names message)
      then set_add c (getLocalSubscribers s n) else getLocalSubscribers s n).
  { intros s silent n HIs. unfold subscribeBulk. rewrite seq_fst.
    rewrite <- (forEach_subscribe_subscribers _ message c s n HIs). by destruct silent. }
  assert (Hunsub : ∀ s silent n, Inv s →
    getLocalSubscribers (unsubscribeBulk shouldLog message c silent s).1 n =
      if bool_decide (n ∈ msg_names message)
      then set_delete c (getLocalSubscribers s n) else getLocalSubscribers s n).
  { intros s silent n HIs. unfold unsubscribeBulk. rewrite seq_fst.
    rewrite <- (forEach_unsubscribe_subscribers _ message c s n HIs). by destruct silent. }
  assert (HI1 : Inv subscribed)
    by apply (Inv_run shouldLog st (SubscribeBulk message c silent1) HI).
  assert (HI2 : Inv back)
    by apply (Inv_run shouldLog subscribed (UnsubscribeBulk message c silent2) HI1).
  split; [by intros; apply Hsub|]. split; [by intros; apply Hunsub|].
  intros Hfresh n.
  assert (getLocalSubscribers back n = getLocalSubscribers st n) as Heq.
  { unfold back. rewrite Hunsub by done. unfold subscribed. rewrite Hsub by done.
    case_bool_decide as Hn; [|done]. by rewrite set_delete_add by by apply Hfresh. }
  split; [done|]. by apply hasLocalSubscribers_ext.
Qed.

Lemma forEach_unsubscribe_run_all names message c st :
  forEach names (λ name, unsubscribe shouldLog name message c true) st
  = run_all shouldLog (map (λ name, Unsubscribe name message c true) names) st.
Proof.
  revert st. induction names as [|name names IH]; intros st; [done|].
  cbn [forEach map run_all run]. unfold seq.
  destruct (unsubscribe shouldLog name message c true st) as [st1 t1]. by rewrite IH.
Qed.

(** A silent [unsubscribe] sends no ACK, in any state. *)
Lemma unsubscribe_silent_no_ack st name message c :
  Forall (λ e, is_ack e = false) (unsubscribe shouldLog name message c true st).2.
Proof.
  unfold unsubscribe, seq, sockets_delete, removeSocket, when, emit, modify, skip.
  repeat (case_match; cbn in *; simplify_eq); repeat constructor.
Qed.

(** X18: [unsubscribeBulk] runs [unsubscribe] with [silent = true] for
    each name of [message.names], in order, and then sends one ACK carrying
    the bulk message's topic, action and correlationId iff its own [silent]
    is false; the per-name calls send no ACK. *)
Theorem unsubscribeBulk_single_ack st message c silent :
  let inner :=
    run_all shouldLog
      (map (λ name, Unsubscribe name message c true) (msg_names message)) st in
  let ack :=
    SocketSendAckMessage c
      (mkMessage (msg_topic message) (msg_action message) None None []
                 (msg_correlationId message) None) in
  let out := unsubscribeBulk shouldLog message c silent st in
  out.1 = inner.1
  ∧ out.2 = inner.2 ++ (if silent then [] else [ack])
  ∧ List.filter is_ack inner.2 = []
  ∧ List.filter is_ack out.2 = if silent then [] else [ack].
Proof.
  intros inner ack out.
  assert (Hinner : List.filter is_ack inner.2 = []).
  { apply filter_none. unfold inner. rewrite <- forEach_unsubscribe_run_all.
    apply forEach_events. intros. apply unsubscribe_silent_no_ack. }
  assert (Hout : out = (inner.1, inner.2 ++ (if silent then [] else [ack]))).
  { unfold out, unsubscribeBulk, inner, seq. rewrite forEach_unsubscribe_run_all.
    destruct (run_all _ _ st) as [st1 t1].
    destruct silent; reflexivity. }
  rewrite Hout. cbn [fst snd]. split; [done|]. split; [done|]. split; [done|].
  rewrite List.filter_app, Hinner. by destruct silent.
Qed.

(** X19: from any state, [subscribe] of a connection that is not yet
    subscribed to the name followed by [unsubscribe] restores the subscriber
    set of every name, and the two calls make one [add] and one [remove] call
    for the name on the cluster state registry. *)
Theorem subscribe_unsubscribe_restores st name m1 m2 c silent1 silent2 :
  reachable shouldLog st →
  c ∉ getLocalSubscribers st name →
  let sub := subscribe shouldLog name m1 c silent1 st in
  let unsub := unsubscribe shouldLog name m2 c silent2 sub.1 in
  (∀ n, getLocalSubscribers unsub.1 n = getLocalSubscribers st n
        ∧ hasLocalSubscribers unsub.1 n = hasLocalSubscribers st n)
  ∧ count (is_cluster_add_of name) (sub.2 ++ unsub.2) = 1
  ∧ count (is_cluster_remove_of name) (sub.2 ++ unsub.2) = 1.
Proof.
  intros Hst Hc sub unsub.
  pose proof (reachable_Coherent _ _ Hst) as HC. pose proof (coherent_inv _ HC) as HI.
  assert (HC1 : Coherent sub.1) by by apply Coherent_subscribe.
  pose proof (coherent_inv _ HC1) as HI1.
  assert (HI2 : Inv unsub.1) by by apply Inv_unsubscribe.
  assert (Heq : ∀ n, getLocalSubscribers unsub.1 n = getLocalSubscribers st n).
  { intros n. unfold unsub. rewrite getLocalSubscribers_unsubscribe by done.
    unfold sub. rewrite !getLocalSubscribers_subscribe by done.
    destruct (decide (n = name)) as [->|Hd]; [|done].
    rewrite decide_True by done. by apply set_delete_add. }
  split; [intros n; split; [done | by apply hasLocalSubscribers_ext]|].
  pose proof (balanced_subscribe shouldLog name st name m1 c silent1 HC) as Hb1.
  pose proof (balanced_unsubscribe shouldLog name sub.1 name m2 c silent2 HC1) as Hb2.
  fold sub in Hb1. fold unsub in Hb2. unfold balanced in Hb1, Hb2.
  assert (Hlen : length (getLocalSubscribers sub.1 name)
                 = S (length (getLocalSubscribers st name))).
  { unfold sub. rewrite getLocalSubscribers_subscribe, decide_True by done.
    by apply length_set_add. }
  rewrite Heq, Hlen in Hb2. rewrite Hlen in Hb1.
  assert (count (is_cluster_remove_of name) sub.2 = 0) as Hr1.
  { unfold sub. destruct (subscriptions st !! name) as [r|] eqn:Hn.
    - destruct (inv_installed _ HI _ _ Hn) as (s0 & Hr & Hnm & Hne).
      rewrite (getLocalSubscribers_entry st name r s0) in Hc by done.
      erewrite subscribe_present by done. apply count_join_trace.
    - rewrite subscribe_absent by done. apply count_join_trace. }
  assert (count (is_cluster_add_of name) unsub.2 = 0) as Ha2.
  { assert (c ∈ getLocalSubscribers sub.1 name) as Hin by by apply subscribe_post.
    apply elem_of_getLocalSubscribers in Hin as (r & s0 & Hn & Hr & Hin).
    unfold unsub. erewrite unsubscribe_member by done. cbn [snd].
    unfold leave_trace. rewrite count_app.
    destruct (count_drop_trace sub.1 c s0 name) as [-> _].
    unfold count. by destruct silent2, (shouldLog DEBUG). }
  rewrite !count_app. lia.
Qed.
End BulkSubscribers.

Lemma bulk_subscribers_witness :
  let message := Sample.bulk 3 ["a"; "b"; "a"] "k" in
  let subscribed := (subscribeBulk Sample.quiet message 1 false Sample.empty).1 in
  let back := (unsubscribeBulk Sample.quiet message 1 false subscribed).1 in
  reachable Sample.quiet Sample.empty
  ∧ (∀ n, n ∈ msg_names message → 1 ∉ getLocalSubscribers Sample.empty n)
  ∧ getLocalSubscribers back "a" = getLocalSubscribers Sample.empty "a".
Proof.
  intros message subscribed back. pose proof (reachable_sample Sample.quiet) as Hst.
  assert (∀ n, n ∈ msg_names message → 1 ∉ getLocalSubscribers Sample.empty n) as Hfresh
    by (intros n _; apply not_elem_of_nil).
  split; [exact Hst|]. split; [exact Hfresh|].
  pose proof (bulk_subscribers Sample.quiet Sample.empty message 1 false false Hst)
    as (_ & _ & Hback).
  exact (proj1 (Hback Hfresh "a")).
Defined.

Lemma subscribe_unsubscribe_restores_witness :
  let st := (run_all Sample.quiet
               [ Subscribe "a" (Sample.request 3 "a") 2 false ] Sample.empty).1 in
  let sub := subscribe Sample.quiet "a" (Sample.request 3 "a") 1 false st in
  let unsub := unsubscribe Sample.quiet "a" (Sample.request 4 "a") 1 false sub.1 in
  reachable Sample.quiet st
  ∧ (1 ∉ getLocalSubscribers st "a")
  ∧ getLocalSubscribers unsub.1 "a" = getLocalSubscribers st "a".
Proof.
  intros st sub unsub.
  assert (reachable Sample.quiet st) as Hst by apply reachable_run_all, reachable_sample.
  assert (1 ∉ getLocalSubscribers st "a") as Hc.
  { intros Hin. apply list_elem_of_singleton in Hin. discriminate. }
  split; [exact Hst|]. split; [exact Hc|].
  pose proof (subscribe_unsubscribe_restores Sample.quiet st "a" (Sample.request 3 "a")
                (Sample.request 4 "a") 1 false false Hst Hc) as [Hall _].
  exact (proj1 (Hall "a")).
Defined.

(** ** Rebinding the reply codes *)

Lemma constant_setAction_ne st slot value key :
  key ≠ toUpperCase slot →
  constant (setAction slot value st).1 key = constant st key.
Proof. intros Hne. unfold constant. cbn. by rewrite lookup_insert_ne. Qed.

Lemma constant_setAction_eq st slot value :
  constant (setAction slot value st).1 (toUpperCase slot) = Some value.
Proof. unfold constant. cbn. by rewrite lookup_insert_eq. Qed.

Section Rebinding.
Variable shouldLog : LOG_LEVEL → bool.

(** X14: after [setAction slot value] with [slot] spelling
    MULTIPLE_SUBSCRIPTIONS in any letter case, the reply to a duplicate
    [subscribe] carries [value] as its action; with [slot] spelling
    NOT_SUBSCRIBED, so does the reply to an [unsubscribe] of a connection
    that is not subscribed. *)
Theorem setAction_reply_codes st slot value name message c :
  reachable shouldLog st →
  let st' := (setAction slot value st).1 in
  let reply :=
    SocketSendMessage c
      {| msg_topic := topic st;
         msg_action := Some value;
         msg_originalAction := msg_action message;
         msg_name := Some name;
         msg_names := [];
         msg_correlationId := None;
         msg_data := None |} in
  (toUpperCase slot = "MULTIPLE_SUBSCRIPTIONS" →
   c ∈ getLocalSubscribers st name →
   ∀ silent, List.filter is_reply (subscribe shouldLog name message c silent st').2
             = [reply])
  ∧ (toUpperCase slot = "NOT_SUBSCRIBED" →
     c ∉ getLocalSubscribers st name →
     List.filter is_reply (unsubscribe shouldLog name message c false st').2 = [reply]).
Proof.
  intros Hst st' reply.
  assert (Hst' : reachable shouldLog st')
    by apply (reachable_call shouldLog st (SetAction slot value) Hst).
  pose proof (reachable_Inv _ _ Hst') as HI'.
  assert (Hloc : getLocalSubscribers st' name = getLocalSubscribers st name) by done.
  split.
  - intros Hslot Hc silent. rewrite <- Hloc in Hc.
    apply elem_of_getLocalSubscribers in Hc as (r & sub & Hn & Hr & Hc).
    erewrite subscribe_duplicate by done. cbn [snd].
    unfold duplicate_trace, multipleSubscriptions. rewrite <- Hslot.
    unfold st'. rewrite constant_setAction_eq. by destruct (shouldLog WARN).
  - intros Hslot Hc. rewrite <- Hloc in Hc.
    assert ((unsubscribe shouldLog name message c false st').2
            = stranger_trace shouldLog st' name message c false) as ->.
    { destruct (subscriptions st' !! name) as [r|] eqn:Hn.
      - destruct (inv_installed _ HI' _ _ Hn) as (sub & Hr & Hnm & Hne).
        rewrite (getLocalSubscribers_entry st' name r sub) in Hc by done.
        by erewrite unsubscribe_stranger.
      - by rewrite unsubscribe_absent. }
    unfold stranger_trace, notSubscribed. rewrite <- Hslot.
    unfold st'. rewrite constant_setAction_eq. by destruct (shouldLog WARN).
Qed.

(** X15: [setAction] for a slot name of ASCII characters that spells
    neither MULTIPLE_SUBSCRIPTIONS nor NOT_SUBSCRIBED -- for SUBSCRIBE and
    UNSUBSCRIBE in particular -- changes nothing that [subscribe] or
    [unsubscribe] sends to sockets, to the cluster state registry or to the
    listener: apart from log entries their events are the same as without
    it. *)
Theorem setAction_only_logs st slot value name message c silent :
  reachable shouldLog st →
  ascii_only slot = true →
  toUpperCase slot ≠ "MULTIPLE_SUBSCRIPTIONS" →
  toUpperCase slot ≠ "NOT_SUBSCRIBED" →
  let st' := (setAction slot value st).1 in
  List.filter (λ e, negb (is_log e)) (subscribe shouldLog name message c silent st').2
  = List.filter (λ e, negb (is_log e)) (subscribe shouldLog name message c silent st).2
  ∧ List.filter (λ e, negb (is_log e)) (unsubscribe shouldLog name message c silent st').2
    = List.filter (λ e, negb (is_log e)) (unsubscribe shouldLog name message c silent st).2.
Proof.
  intros Hst _ Hm Hn' st'.
  assert (Hst' : reachable shouldLog st')
    by apply (reachable_call shouldLog st (SetAction slot value) Hst).
  pose proof (reachable_Inv _ _ Hst) as HI. pose proof (reachable_Inv _ _ Hst') as HI'.
  assert (Hmult : constant st' "MULTIPLE_SUBSCRIPTIONS" = constant st "MULTIPLE_SUBSCRIPTIONS")
    by by apply constant_setAction_ne.
  assert (Hnot : constant st' "NOT_SUBSCRIBED" = constant st "NOT_SUBSCRIBED")
    by by apply constant_setAction_ne.
  assert (Hjoin :
    List.filter (λ e, negb (is_log e)) (join_trace shouldLog st' name message c silent)
    = List.filter (λ e, negb (is_log e)) (join_trace shouldLog st name message c silent)).
  { unfold join_trace. cbn [st' setAction modify fst sockets subscriptionListener
                            with_constants].
    destruct (bool_decide _), (subscriptionListener st), silent, (shouldLog DEBUG);
      reflexivity. }
  assert (Hdup : duplicate_trace shouldLog st' name message c
                 = duplicate_trace shouldLog st name message c).
  { unfold duplicate_trace, multipleSubscriptions. by rewrite Hmult. }
  assert (Hstranger : stranger_trace shouldLog st' name message c silent
                      = stranger_trace shouldLog st name message c silent).
  { unfold stranger_trace, notSubscribed. by rewrite Hnot. }
  assert (Hsubs : subscriptions st' = subscriptions st) by done.
  assert (Hheap : heap st' = heap st) by done.
  destruct (subscriptions st !! name) as [r|] eqn:Hn.
  - destruct (inv_installed _ HI _ _ Hn) as (sub & Hr & Hnm & Hne).
    assert (Hn1 : subscriptions st' !! name = Some r) by by rewrite Hsubs.
    assert (Hr1 : heap st' !! r = Some sub) by by rewrite Hheap.
    destruct (decide (c ∈ Subscription.sockets sub)) as [Hc|Hc].
    + split.
      * rewrite (subscribe_duplicate shouldLog st' name message c silent r sub) by done.
        rewrite (subscribe_duplicate shouldLog st name message c silent r sub) by done.
        cbn [snd]. by rewrite Hdup.
      * rewrite (unsubscribe_member shouldLog st' name message c silent r sub) by done.
        rewrite (unsubscribe_member shouldLog st name message c silent r sub) by done.
        cbn [snd]. unfold leave_trace, drop_trace. cbn [st' setAction modify fst
          subscriptionListener with_constants].
        destruct (bool_decide _), (subscriptionListener st), silent, (shouldLog DEBUG);
          reflexivity.
    + split.
      * rewrite (subscribe_present shouldLog st' name message c silent r sub) by done.
        rewrite (subscribe_present shouldLog st name message c silent r sub) by done.
        done.
      * rewrite (unsubscribe_stranger shouldLog st' name message c silent r sub) by done.
        rewrite (unsubscribe_stranger shouldLog st name message c silent r sub) by done.
        cbn [snd]. by rewrite Hstranger.
  - assert (Hn1 : subscriptions st' !! name = None) by by rewrite Hsubs.
    split.
    + rewrite (subscribe_absent shouldLog st') by done.
      rewrite (subscribe_absent shouldLog st) by done. done.
    + rewrite (unsubscribe_absent shouldLog st') by done.
      rewrite (unsubscribe_absent shouldLog st) by done. cbn [snd]. by rewrite Hstranger.
Qed.
End Rebinding.

Lemma setAction_reply_codes_witness :
  let st := (run_all Sample.quiet
               [ Subscribe "x" (Sample.request 3 "x") 1 false ] Sample.empty).1 in
  let st' := (setAction "multiple_subscriptions" 77 st).1 in
  reachable Sample.quiet st
  ∧ toUpperCase "multiple_subscriptions" = "MULTIPLE_SUBSCRIPTIONS"
  ∧ 1 ∈ getLocalSubscribers st "x"
  ∧ List.filter is_reply (subscribe Sample.quiet "x" (Sample.request 3 "x") 1 false st').2
    = [SocketSendMessage 1
         (mkMessage EVENT (Some 77) (Some 3) (Some "x") [] None None)].
Proof.
  intros st st'.
  assert (reachable Sample.quiet st) as Hst by apply reachable_run_all, reachable_sample.
  assert (toUpperCase "multiple_subscriptions" = "MULTIPLE_SUBSCRIPTIONS") as Hup
    by reflexivity.
  assert (1 ∈ getLocalSubscribers st "x") as Hc by apply list_elem_of_here.
  split; [exact Hst|]. split; [exact Hup|]. split; [exact Hc|].
  pose proof (setAction_reply_codes Sample.quiet st "multiple_subscriptions" 77 "x"
                (Sample.request 3 "x") 1 Hst) as [Hdup _].
  exact (Hdup Hup Hc false).
Defined.

Lemma setAction_only_logs_witness :
  let st' := (setAction "subscribe" 77 Sample.empty).1 in
  reachable Sample.quiet Sample.empty
  ∧ ascii_only "subscribe" = true
  ∧ toUpperCase "subscribe" ≠ "MULTIPLE_SUBSCRIPTIONS"
  ∧ toUpperCase "subscribe" ≠ "NOT_SUBSCRIBED"
  ∧ List.filter (λ e, negb (is_log e))
      (subscribe Sample.quiet "x" (Sample.request 3 "x") 1 false st').2
    = List.filter (λ e, negb (is_log e))
        (subscribe Sample.quiet "x" (Sample.request 3 "x") 1 false Sample.empty).2.
Proof.
  intros st'. pose proof (reachable_sample Sample.quiet) as Hst.
  assert (toUpperCase "subscribe" ≠ "MULTIPLE_SUBSCRIPTIONS") as H1 by discriminate.
  assert (toUpperCase "subscribe" ≠ "NOT_SUBSCRIBED") as H2 by discriminate.
  assert (ascii_only "subscribe" = true) as Hascii by reflexivity.
  split; [exact Hst|]. split; [exact Hascii|]. split; [exact H1|]. split; [exact H2|].
  exact (proj1 (setAction_only_logs Sample.quiet Sample.empty "subscribe" 77 "x"
                  (Sample.request 3 "x") 1 false Hst Hascii H1 H2)).
Defined.

(** ** Remote servers *)

Lemma indexOf_bounds x l : (-1 ≤ indexOf x l < Z.of_nat (length l))%Z.
Proof.
  induction l as [|y l IH]; cbn [indexOf length]; [lia|].
  case_decide; [lia|]. destruct (Z.ltb_spec (indexOf x l) 0); lia.
Qed.

Lemma indexOf_absent x l : x ∉ l → indexOf x l = (-1)%Z.
Proof.
  induction l as [|y l IH]; intros Hx; [done|].
  apply not_elem_of_cons in Hx as [Hne Hx]. cbn [indexOf].
  rewrite decide_False by done. by rewrite IH.
Qed.

Lemma indexOf_first x l1 l2 :
  x ∉ l1 → indexOf x (l1 ++ x :: l2) = Z.of_nat (length l1).
Proof.
  induction l1 as [|y l1 IH]; intros Hx; cbn [indexOf app length].
  - by rewrite decide_True.
  - apply not_elem_of_cons in Hx as [Hne Hx].
    rewrite decide_False by done. rewrite IH by done.
    destruct (Z.ltb_spec (Z.of_nat (length l1)) 0); lia.
Qed.

Lemma splice1_middle (l1 l2 : list string) x :
  splice1 (Z.of_nat (length l1)) (l1 ++ x :: l2) = l1 ++ l2.
Proof.
  unfold splice1. rewrite length_app. cbn [length].
  destruct (Z.ltb_spec (Z.of_nat (length l1)) 0) as [|_]; [lia|].
  rewrite Z.min_l by lia. rewrite Nat2Z.id.
  rewrite take_app_length. f_equal.
  rewrite (cons_middle x l1 l2), app_assoc.
  apply drop_app_length'. rewrite length_app. cbn. lia.
Qed.

(** X16: [getAllRemoteServers] returns the servers of the cluster state
    registry without the first occurrence of the local server name, the
    others in their order; a list that does not name the local server comes
    back as it is, and from a list without repetitions the local server is
    gone. *)
Theorem getAllRemoteServers_removes_local serverName serverNames :
  (serverName ∉ serverNames →
   getAllRemoteServers serverName serverNames = serverNames)
  ∧ (∀ before after,
       serverNames = before ++ serverName :: after → serverName ∉ before →
       getAllRemoteServers serverName serverNames = before ++ after)
  ∧ (NoDup serverNames →
     (serverName ∉ getAllRemoteServers serverName serverNames)
     ∧ ∀ server, server ≠ serverName →
         (server ∈ getAllRemoteServers serverName serverNames ↔ server ∈ serverNames)).
Proof.
  assert (Habsent : serverName ∉ serverNames →
    getAllRemoteServers serverName serverNames = serverNames).
  { intros Hx. unfold getAllRemoteServers. by rewrite indexOf_absent. }
  assert (Hfirst : ∀ before after,
    serverNames = before ++ serverName :: after → serverName ∉ before →
    getAllRemoteServers serverName serverNames = before ++ after).
  { intros before after -> Hx. unfold getAllRemoteServers.
    rewrite indexOf_first by done.
    destruct (Z.gtb_spec (Z.of_nat (length before)) (-1)) as [_|]; [|lia].
    apply splice1_middle. }
  split; [done|]. split; [done|]. intros Hnd.
  destruct (decide (serverName ∈ serverNames)) as [Hin|Hout].
  - apply list_elem_of_split_l in Hin as (before & after & Heq & Hx).
    rewrite (Hfirst before after Heq Hx). subst serverNames.
    apply NoDup_app in Hnd as (_ & Hdisj & [Hy _]%NoDup_cons). split.
    + rewrite elem_of_app. tauto.
    + intros server Hne. rewrite !elem_of_app, elem_of_cons. tauto.
  - rewrite Habsent by done. split; [done|]. tauto.
Qed.

Lemma getAllRemoteServers_removes_local_witness :
  NoDup ["alpha"; "beta"; "gamma"]
  ∧ getAllRemoteServers "beta" ["alpha"; "beta"; "gamma"] = ["alpha"; "gamma"]
  ∧ ("beta" ∉ getAllRemoteServers "beta" ["alpha"; "beta"; "gamma"]).
Proof.
  assert (NoDup ["alpha"; "beta"; "gamma"]) as Hnd.
  { apply NoDup_ListNoDup. repeat constructor; cbn; intuition discriminate. }
  split; [exact Hnd|].
  pose proof (getAllRemoteServers_removes_local "beta" ["alpha"; "beta"; "gamma"])
    as (_ & Hfirst & Hgone).
  split.
  - apply (Hfirst ["alpha"] ["gamma"]); [reflexivity|].
    intros Hin. apply list_elem_of_singleton in Hin. discriminate.
  - exact (proj1 (Hgone Hnd)).
Defined.

(** ** The [--log-level] option *)

Lemma lower_ascii_idemp a : lower_ascii (lower_ascii a) = lower_ascii a.
Proof. by destruct a as [[] [] [] [] [] [] [] []]. Qed.

Lemma starts_with_ci_lower mid post :
  starts_with_ci (toLowerCase mid) (mid +:+ post) = true.
Proof.
  induction mid as [|a mid IH]; [done|].
  change (String a mid +:+ post) with (String a (mid +:+ post)).
  cbn [toLowerCase starts_with_ci].
  by rewrite lower_ascii_idemp, Ascii.eqb_refl, IH.
Qed.

Lemma starts_with_ci_split pattern s :
  starts_with_ci pattern s = true →
  ∃ mid post, s = mid +:+ post ∧ toLowerCase mid = toLowerCase pattern.
Proof.
  revert s. induction pattern as [|a pattern IH]; intros s Hs.
  - by exists EmptyString, s.
  - destruct s as [|b s]; [done|]. cbn [starts_with_ci] in Hs.
    apply andb_true_iff in Hs as [Hab Hs]. apply Ascii.eqb_eq in Hab.
    destruct (IH s Hs) as (mid & post & -> & Hmid).
    exists (String b mid), post.
    change (String b mid +:+ post) with (String b (mid +:+ post)).
    cbn [toLowerCase]. by rewrite Hmid, Hab.
Qed.

Lemma contains_ci_here pattern s :
  starts_with_ci pattern s = true → contains_ci pattern s = true.
Proof. intros Hs. destruct s; cbn [contains_ci]; by rewrite Hs. Qed.

Lemma contains_ci_append pattern pre s :
  starts_with_ci pattern s = true → contains_ci pattern (pre +:+ s) = true.
Proof.
  intros Hs. induction pre as [|a pre IH]; [by apply contains_ci_here|].
  change (String a pre +:+ s) with (String a (pre +:+ s)).
  cbn [contains_ci]. rewrite IH. apply orb_true_r.
Qed.

Lemma contains_ci_split pattern s :
  contains_ci pattern s = true →
  ∃ pre rest, s = pre +:+ rest ∧ starts_with_ci pattern rest = true.
Proof.
  induction s as [|a s IH]; cbn [contains_ci]; intros Hs.
  - rewrite orb_false_r in Hs. by exists EmptyString, EmptyString.
  - apply orb_true_iff in Hs as [Hs|Hs].
    + by exists EmptyString, (String a s).
    + destruct (IH Hs) as (pre & rest & -> & Hrest). by exists (String a pre), rest.
Qed.

Lemma levels_lower level : level ∈ levels → toLowerCase level = level.
Proof.
  unfold levels. intros Hin.
  repeat (apply elem_of_cons in Hin as [->|Hin]; [reflexivity|]).
  by apply elem_of_nil in Hin.
Qed.

(** X21: [parseLogLevel] accepts every string in which one of the words
    debug, info, warn, error, off occurs somewhere, in any letter case --
    the pattern has no anchors -- and returns a value for it; for a string
    of ASCII characters the value is the whole string with its letters in
    upper case.  Any other string ends the process with exit code 1. *)
Theorem parseLogLevel_accepts logLevel :
  ((∃ pre mid post, logLevel = pre +:+ mid +:+ post ∧ toLowerCase mid ∈ levels) →
   (∃ level, parseLogLevel logLevel = Value level)
   ∧ (ascii_only logLevel = true →
      parseLogLevel logLevel = Value (toUpperCase logLevel)))
  ∧ ((¬ ∃ pre mid post, logLevel = pre +:+ mid +:+ post ∧ toLowerCase mid ∈ levels) →
     parseLogLevel logLevel = ProcessExit 1).
Proof.
  unfold parseLogLevel. split.
  - intros (pre & mid & post & -> & Hlevel).
    assert (existsb (λ level, contains_ci level (pre +:+ mid +:+ post)) levels = true) as ->.
    { apply existsb_exists. exists (toLowerCase mid). split; [by apply list_elem_of_In|].
      apply contains_ci_append, starts_with_ci_lower. }
    cbn [negb]. split; [by eexists | done].
  - intros Hnone.
    destruct (existsb (λ level, contains_ci level logLevel) levels) eqn:Hex; [|done].
    exfalso. apply Hnone. apply existsb_exists in Hex as (level & Hin & Hc).
    apply list_elem_of_In in Hin.
    apply contains_ci_split in Hc as (pre & rest & -> & Hrest).
    apply starts_with_ci_split in Hrest as (mid & post & -> & Hmid).
    exists pre, mid, post. split; [done|]. by rewrite Hmid, levels_lower.
Qed.

Lemma parseLogLevel_accepts_witness :
  toLowerCase "Info" ∈ levels
  ∧ ascii_only "misInformation" = true
  ∧ parseLogLevel "misInformation" = Value "MISINFORMATION".
Proof.
  assert (toLowerCase "Info" ∈ levels) as Hlevel.
  { apply list_elem_of_In. cbn. tauto. }
  assert (ascii_only "misInformation" = true) as Hascii by reflexivity.
  split; [exact Hlevel|]. split; [exact Hascii|].
  refine (proj2 (proj1 (parseLogLevel_accepts "misInformation") _) Hascii).
  exists "mis", "Info", "rmation". split; [reflexivity | exact Hlevel].
Defined.
